(** * gimli: a shallow embedding of gimli.c

    gimli samples host metrics in four background threads and serves
    them as JSON over a socket.  This file embeds the samplers
    ([get_cpu_util], [get_loadavg], [get_meminfo], [get_netif]), the
    router ([handle_request]) and the connection handler
    ([handle_connection]) of [gimli.c] as executable definitions, and
    states the properties of the specification over them.

    C integers are [Z]; C strings are [string], read up to the first NUL
    character; [long double] is the x87 extended format, given by
    [SpecFloat] at precision 64; arrays are functions of their index;
    library and system calls appear through their results, gathered in
    one environment record per function. *)

From Stdlib Require Import ZArith List String Ascii Bool Lia.
From Stdlib Require Import SpecFloat QArith Qpower Qabs Lqa.
Import ListNotations.

Local Open Scope string_scope.
Local Open Scope Z_scope.

(** ** C strings *)

Module CString.

Definition NUL : ascii := Ascii.zero.
Definition LF : ascii := "010"%char.
Definition CR : ascii := "013"%char.
Definition DQ : ascii := "034"%char.

(** The text of one character, and the pieces the format strings of
    [gimli.c] share. *)
Definition chr (c : ascii) : string := String c EmptyString.
Definition q : string := chr DQ.
Definition nl : string := chr LF.
Definition crlf : string := String CR (chr LF).

(** [s[0]], where the end of the Rocq string is the terminating NUL. *)
Definition head (s : string) : ascii :=
  match s with
  | EmptyString => NUL
  | String c _ => c
  end.

Definition tail (s : string) : string :=
  match s with
  | EmptyString => EmptyString
  | String _ t => t
  end.

Definition code (c : ascii) : Z := Z.of_nat (nat_of_ascii c).

(** [strncmp(s1, s2, n)]: compares at most [n] characters and stops at
    the first difference or after a NUL. *)
Fixpoint strncmp (s1 s2 : string) (n : nat) : Z :=
  match n with
  | O => 0
  | S n' =>
      let c1 := head s1 in
      let c2 := head s2 in
      if negb (Ascii.eqb c1 c2) then code c1 - code c2
      else if Ascii.eqb c1 NUL then 0
      else strncmp (tail s1) (tail s2) n'
  end.

(** The content of a buffer as a C string: the characters before the
    first NUL. *)
Fixpoint cstr (s : string) : string :=
  match s with
  | EmptyString => EmptyString
  | String c t => if Ascii.eqb c NUL then EmptyString else String c (cstr t)
  end.

(** [sizeof (lit)] of a string literal counts its terminating NUL. *)
Definition sizeof_lit (lit : string) : nat := S (String.length lit).

(** [snprintf(out, size, ...)] keeps at most [size - 1] characters of
    the formatted text. *)
Definition snprintf (size : nat) (text : string) : string :=
  substring 0 (size - 1) text.

(** The decimal digits of [n >= 0], most significant first, at most
    [fuel] of them, in front of [acc]. *)
Definition digit (d : Z) : ascii := ascii_of_nat (48 + Z.to_nat d).

Fixpoint dec_digits (fuel : nat) (n : Z) (acc : string) : string :=
  match fuel with
  | O => acc
  | S fuel' =>
      let acc := String (digit (n mod 10)) acc in
      if n / 10 =? 0 then acc else dec_digits fuel' (n / 10) acc
  end.

(** [%lu] and [%hu] (an [unsigned long] has at most 20 digits), [%d],
    and the zero-padded [%0Wlu]. *)
Definition fmt_lu (n : Z) : string := dec_digits 20 n EmptyString.

Definition fmt_d (n : Z) : string :=
  if n <? 0 then String "-" (dec_digits 10 (- n) EmptyString)
  else dec_digits 10 n EmptyString.

Fixpoint zeros (k : nat) : string :=
  match k with
  | O => EmptyString
  | S k' => String "0" (zeros k')
  end.

Definition fmt_0lu (width : nat) (n : Z) : string :=
  let s := fmt_lu n in
  zeros (width - String.length s) ++ s.

(** [n] copies of the character [c]. *)
Fixpoint fill (c : ascii) (n : nat) : string :=
  match n with
  | O => EmptyString
  | S n' => String c (fill c n')
  end.

End CString.
Import CString.

(** ** Floating-point values

    [tot] and the elements of [gimli.cpu] are [long double]; the format
    is the 80-bit extended one of the x87, 64 digits of mantissa. *)

Module LongDouble.

Definition prec : Z := 64.
Definition emax : Z := 16384.

Definition ldouble : Type := spec_float.

Definition zero : ldouble := S754_zero false.

(** Conversion of an integer constant, or of a decimal integer of the
    input text, rounded to nearest. *)
Definition of_Z (n : Z) : ldouble := binary_normalize prec emax n 0 false.

Definition sub : ldouble -> ldouble -> ldouble := SFsub prec emax.
Definition add : ldouble -> ldouble -> ldouble := SFadd prec emax.
Definition div : ldouble -> ldouble -> ldouble := SFdiv prec emax.
Definition mul : ldouble -> ldouble -> ldouble := SFmul prec emax.

(** The C comparison [a > b], false when either side is a NaN. *)
Definition gt (a b : ldouble) : bool := SFltb b a.

End LongDouble.

(** The rational number a floating-point value stands for. *)
Definition val (x : spec_float) : Q :=
  match x with
  | S754_finite s m e => (inject_Z (cond_Zopp s (Zpos m)) * 2 ^ e)%Q
  | _ => 0%Q
  end.

Definition is_zero (x : spec_float) : bool :=
  match x with
  | S754_zero _ => true
  | _ => false
  end.

Definition is_finite (x : spec_float) : bool :=
  match x with
  | S754_zero _ | S754_finite _ _ _ => true
  | _ => false
  end.

(** ** printf conversions of floating-point values *)

Module Printf.

Definition sign (s : bool) : string := if s then "-" else EmptyString.

(** Nearest integer to [num / den], ties to even ([den > 0]). *)
Definition round_half_even (num den : Z) : Z :=
  let qt := num / den in
  match (2 * (num mod den) ?= den) with
  | Lt => qt
  | Gt => qt + 1
  | Eq => if Z.even qt then qt else qt + 1
  end.

(** [%.kf] and [%.kLf] for [k > 0]: the value rounded to [k] decimals;
    the sign of a NaN, which [spec_float] does not keep, is not printed. *)
Definition fmt_f (k : nat) (x : spec_float) : string :=
  match x with
  | S754_nan => "nan"
  | S754_infinity s => sign s ++ "inf"
  | S754_zero s => sign s ++ "0." ++ zeros k
  | S754_finite s m e =>
      let p10 := 10 ^ Z.of_nat k in
      let scaled :=
        match e with
        | Zneg p => round_half_even (Zpos m * p10) (2 ^ Zpos p)
        | _ => Zpos m * 2 ^ e * p10
        end in
      sign s ++ dec_digits 4933 (scaled / p10) EmptyString
      ++ "." ++ fmt_0lu k (scaled mod p10)
  end.

End Printf.

(** ** The shared record [gimli_t] *)

(** Modelled from the spec: the types and constants of [gimli.h], which
    is not among the sources.  [status_t] has the two values the
    samplers return; the five percentages, the nine memory quantities
    and the three load averages are indexed by the enumerators
    [gimli.c] uses. *)
Inductive status_t := G_OK | G_FAIL.

Inductive cpu_idx := CPU_USER | CPU_NICE | CPU_SYSTEM | CPU_IDLE | CPU_IOWAIT.

Inductive mem_idx :=
  TOTAL_RAM | FREE_RAM | SHARED_RAM | BUFFER_RAM | TOTAL_SWAP | FREE_SWAP
| TOTAL_HIGH | FREE_HIGH | MEM_UNIT.

Definition cpu_idx_eqb (a b : cpu_idx) : bool :=
  match a, b with
  | CPU_USER, CPU_USER | CPU_NICE, CPU_NICE | CPU_SYSTEM, CPU_SYSTEM
  | CPU_IDLE, CPU_IDLE | CPU_IOWAIT, CPU_IOWAIT => true
  | _, _ => false
  end.

Definition mem_idx_eqb (a b : mem_idx) : bool :=
  match a, b with
  | TOTAL_RAM, TOTAL_RAM | FREE_RAM, FREE_RAM | SHARED_RAM, SHARED_RAM
  | BUFFER_RAM, BUFFER_RAM | TOTAL_SWAP, TOTAL_SWAP | FREE_SWAP, FREE_SWAP
  | TOTAL_HIGH, TOTAL_HIGH | FREE_HIGH, FREE_HIGH | MEM_UNIT, MEM_UNIT => true
  | _, _ => false
  end.

(** Modelled from the spec: the indices of [gimli.load], the averages
    of 1, 5 and 15 minutes in the order [get_loadavg] fills them. *)
Definition LOAD_ONE : nat := 0.
Definition LOAD_FIVE : nat := 1.
Definition LOAD_FIFTEEN : nat := 2.

(** An array element assignment [a[k] = v]. *)
Definition upd {I A : Type} (eqb : I -> I -> bool) (a : I -> A) (k : I) (v : A)
  : I -> A :=
  fun j => if eqb j k then v else a j.

(** Modelled from the spec: [gimli_cpu_t], one sample of the five
    cumulative counters user, nice, system, idle and iowait; they are
    read in the type of [tot] and of the percentages.  (Were they
    integers, the deltas and their sum, below [2 ^ 64], would convert to
    the same [long double] values before the division.) *)
Module Cpu.
Record gimli_cpu_t := {
  u : LongDouble.ldouble;
  n : LongDouble.ldouble;
  s : LongDouble.ldouble;
  i : LongDouble.ldouble;
  w : LongDouble.ldouble
}.
End Cpu.

(** Modelled from the spec: one element of [gimli.net], a name and an
    IPv4 address, and [gimli_t] with the fields [gimli.c] reads and
    writes, in the types its format strings give them. *)
Record netif_t := {
  ifname : string;
  ipv4 : string
}.

Record gimli_t := {
  cpu : cpu_idx -> LongDouble.ldouble;
  load : nat -> spec_float;
  meminfo : mem_idx -> Z;
  procs : Z;
  uptime : Z;
  cores : Z;
  netifs : Z;
  net : Z -> netif_t
}.

Definition set_cpu (g : gimli_t) (k : cpu_idx) (v : LongDouble.ldouble) : gimli_t :=
  {| cpu := upd cpu_idx_eqb (cpu g) k v; load := load g; meminfo := meminfo g;
     procs := procs g; uptime := uptime g; cores := cores g;
     netifs := netifs g; net := net g |}.

Definition set_load (g : gimli_t) (k : nat) (v : spec_float) : gimli_t :=
  {| cpu := cpu g; load := upd Nat.eqb (load g) k v; meminfo := meminfo g;
     procs := procs g; uptime := uptime g; cores := cores g;
     netifs := netifs g; net := net g |}.

Definition set_meminfo (g : gimli_t) (k : mem_idx) (v : Z) : gimli_t :=
  {| cpu := cpu g; load := load g; meminfo := upd mem_idx_eqb (meminfo g) k v;
     procs := procs g; uptime := uptime g; cores := cores g;
     netifs := netifs g; net := net g |}.

Definition set_procs (g : gimli_t) (v : Z) : gimli_t :=
  {| cpu := cpu g; load := load g; meminfo := meminfo g;
     procs := v; uptime := uptime g; cores := cores g;
     netifs := netifs g; net := net g |}.

Definition set_uptime (g : gimli_t) (v : Z) : gimli_t :=
  {| cpu := cpu g; load := load g; meminfo := meminfo g;
     procs := procs g; uptime := v; cores := cores g;
     netifs := netifs g; net := net g |}.

Definition set_cores (g : gimli_t) (v : Z) : gimli_t :=
  {| cpu := cpu g; load := load g; meminfo := meminfo g;
     procs := procs g; uptime := uptime g; cores := v;
     netifs := netifs g; net := net g |}.

Definition set_netifs (g : gimli_t) (v : Z) : gimli_t :=
  {| cpu := cpu g; load := load g; meminfo := meminfo g;
     procs := procs g; uptime := uptime g; cores := cores g;
     netifs := v; net := net g |}.

Definition set_net (g : gimli_t) (k : Z) (v : netif_t) : gimli_t :=
  {| cpu := cpu g; load := load g; meminfo := meminfo g;
     procs := procs g; uptime := uptime g; cores := cores g;
     netifs := netifs g; net := upd Z.eqb (net g) k v |}.

(** The global [gimli] before any thread has run: every byte zero. *)
Definition gimli_zero : gimli_t :=
  {| cpu := fun _ => LongDouble.zero; load := fun _ => S754_zero false;
     meminfo := fun _ => 0; procs := 0; uptime := 0; cores := 0; netifs := 0;
     net := fun _ => {| ifname := EmptyString; ipv4 := EmptyString |} |}.

(** ** get_cpu_util *)

(** What the library calls of one [get_cpu_util] return: whether
    [fopen] and [fclose] succeed, and for each [fgets] the values that
    [sscanf] converts from the line read, in order (no line at all when
    [fgets] returns NULL). *)
Record cpu_env := {
  cpu_fopen : bool;
  cpu_fgets1 : option (list LongDouble.ldouble);
  cpu_fgets2 : option (list LongDouble.ldouble);
  cpu_fclose : bool
}.

Definition cpu_zero : Cpu.gimli_cpu_t :=
  {| Cpu.u := LongDouble.zero; Cpu.n := LongDouble.zero; Cpu.s := LongDouble.zero;
     Cpu.i := LongDouble.zero; Cpu.w := LongDouble.zero |}.

(** Modelled from the spec: [sscanf(buf, CPU_FMT, &c.u, &c.n, &c.s,
    &c.i, &c.w)] with the format [CPU_FMT] of [gimli.h]; the values
    converted from the line are stored in order, the other fields keep
    their content, and the result is the number of values stored. *)
Definition sscanf_cpu (vals : list LongDouble.ldouble) (c : Cpu.gimli_cpu_t)
  : Z * Cpu.gimli_cpu_t :=
  match vals with
  | [] => (0, c)
  | [a] =>
      (1, {| Cpu.u := a; Cpu.n := Cpu.n c; Cpu.s := Cpu.s c; Cpu.i := Cpu.i c;
             Cpu.w := Cpu.w c |})
  | [a; b] =>
      (2, {| Cpu.u := a; Cpu.n := b; Cpu.s := Cpu.s c; Cpu.i := Cpu.i c;
             Cpu.w := Cpu.w c |})
  | [a; b; c3] =>
      (3, {| Cpu.u := a; Cpu.n := b; Cpu.s := c3; Cpu.i := Cpu.i c;
             Cpu.w := Cpu.w c |})
  | [a; b; c3; d] =>
      (4, {| Cpu.u := a; Cpu.n := b; Cpu.s := c3; Cpu.i := d; Cpu.w := Cpu.w c |})
  | a :: b :: c3 :: d :: e :: _ =>
      (5, {| Cpu.u := a; Cpu.n := b; Cpu.s := c3; Cpu.i := d; Cpu.w := e |})
  end.

(** [new > old ? new - old : old - new] *)
Definition abs_diff (new old : LongDouble.ldouble) : LongDouble.ldouble :=
  if LongDouble.gt new old then LongDouble.sub new old else LongDouble.sub old new.

Definition cpu_diff (new old : Cpu.gimli_cpu_t) : Cpu.gimli_cpu_t :=
  {| Cpu.u := abs_diff (Cpu.u new) (Cpu.u old);
     Cpu.n := abs_diff (Cpu.n new) (Cpu.n old);
     Cpu.s := abs_diff (Cpu.s new) (Cpu.s old);
     Cpu.i := abs_diff (Cpu.i new) (Cpu.i old);
     Cpu.w := abs_diff (Cpu.w new) (Cpu.w old) |}.

(** [tot = diff.u + diff.n + diff.s + diff.i + diff.w] *)
Definition cpu_tot (diff : Cpu.gimli_cpu_t) : LongDouble.ldouble :=
  LongDouble.add
    (LongDouble.add
       (LongDouble.add (LongDouble.add (Cpu.u diff) (Cpu.n diff)) (Cpu.s diff))
       (Cpu.i diff))
    (Cpu.w diff).

(** [(d / tot) * 100] *)
Definition percent (d tot : LongDouble.ldouble) : LongDouble.ldouble :=
  LongDouble.mul (LongDouble.div d tot) (LongDouble.of_Z 100).

Definition get_cpu_util (env : cpu_env) (gimli : gimli_t) : status_t * gimli_t :=
  if negb (cpu_fopen env) then (G_FAIL, gimli) else
  match cpu_fgets1 env with
  | None => (G_FAIL, gimli)
  | Some line1 =>
      let '(n1, old) := sscanf_cpu line1 cpu_zero in
      if n1 <? 4 then (G_FAIL, gimli) else
      match cpu_fgets2 env with
      | None => (G_FAIL, gimli)
      | Some line2 =>
          let '(n2, new) := sscanf_cpu line2 cpu_zero in
          if n2 <? 4 then (G_FAIL, gimli) else
          if negb (cpu_fclose env) then (G_FAIL, gimli) else
          let diff := cpu_diff new old in
          let tot := cpu_tot diff in
          let gimli := set_cpu gimli CPU_USER (percent (Cpu.u diff) tot) in
          let gimli := set_cpu gimli CPU_NICE (percent (Cpu.n diff) tot) in
          let gimli := set_cpu gimli CPU_SYSTEM (percent (Cpu.s diff) tot) in
          let gimli := set_cpu gimli CPU_IDLE (percent (Cpu.i diff) tot) in
          let gimli := set_cpu gimli CPU_IOWAIT (percent (Cpu.w diff) tot) in
          (G_OK, gimli)
      end
  end.

(** ** get_loadavg *)

Record load_env := {
  load_fopen : bool;
  load_fgets : option (list spec_float);
  load_fclose : bool
}.

(** Modelled from the spec: [sscanf(buf, LOAD_FMT, &gimli->load[0],
    &gimli->load[1], &gimli->load[2])] with the format [LOAD_FMT] of
    [gimli.h]; each value is stored in the record as soon as it is
    converted, and the result is the number of values stored. *)
Definition sscanf_load (vals : list spec_float) (gimli : gimli_t) : Z * gimli_t :=
  match vals with
  | [] => (0, gimli)
  | [a] => (1, set_load gimli 0 a)
  | [a; b] => (2, set_load (set_load gimli 0 a) 1 b)
  | a :: b :: c :: _ => (3, set_load (set_load (set_load gimli 0 a) 1 b) 2 c)
  end.

Definition get_loadavg (env : load_env) (gimli : gimli_t) : status_t * gimli_t :=
  if negb (load_fopen env) then (G_FAIL, gimli) else
  match load_fgets env with
  | None => (G_FAIL, gimli)
  | Some line =>
      let '(cnt, gimli) := sscanf_load line gimli in
      if cnt <? 2 then (G_FAIL, gimli) else
      if negb (load_fclose env) then (G_FAIL, gimli) else
      (G_OK, gimli)
  end.

(** ** get_meminfo *)

(** [struct sysinfo], the fields [get_meminfo] reads. *)
Record sysinfo_t := {
  si_uptime : Z;
  si_totalram : Z;
  si_freeram : Z;
  si_sharedram : Z;
  si_bufferram : Z;
  si_totalswap : Z;
  si_freeswap : Z;
  si_procs : Z;
  si_totalhigh : Z;
  si_freehigh : Z;
  si_mem_unit : Z
}.

(** [(x * unit) / 1024] in [unsigned long]. *)
Definition to_kb (x unit : Z) : Z := ((x * unit) mod 2 ^ 64) / 1024.

(** [sysinfo(&meminfo)]: [None] when it returns a negative value. *)
Definition get_meminfo (env : option sysinfo_t) (gimli : gimli_t)
  : status_t * gimli_t :=
  match env with
  | None => (G_FAIL, gimli)
  | Some meminfo =>
      let unit := si_mem_unit meminfo in
      let gimli := set_meminfo gimli TOTAL_RAM (to_kb (si_totalram meminfo) unit) in
      let gimli := set_meminfo gimli FREE_RAM (to_kb (si_freeram meminfo) unit) in
      let gimli := set_meminfo gimli SHARED_RAM (to_kb (si_sharedram meminfo) unit) in
      let gimli := set_meminfo gimli BUFFER_RAM (to_kb (si_bufferram meminfo) unit) in
      let gimli := set_meminfo gimli TOTAL_SWAP (to_kb (si_totalswap meminfo) unit) in
      let gimli := set_meminfo gimli FREE_SWAP (to_kb (si_freeswap meminfo) unit) in
      let gimli := set_meminfo gimli TOTAL_HIGH (to_kb (si_totalhigh meminfo) unit) in
      let gimli := set_meminfo gimli FREE_HIGH (to_kb (si_freehigh meminfo) unit) in
      let gimli := set_meminfo gimli MEM_UNIT unit in
      let gimli := set_procs gimli (si_procs meminfo) in
      let gimli := set_uptime gimli (si_uptime meminfo) in
      (G_OK, gimli)
  end.

(** ** get_netif *)

Definition AF_INET : Z := 2.
Definition AF_INET6 : Z := 10.

(** [struct sockaddr] and one element of the list [getifaddrs] builds;
    [ifa_addr] may be a null pointer. *)
Record sockaddr := {
  sa_family : Z;
  sa_data : string
}.

Record ifaddrs := {
  ifa_name : string;
  ifa_addr : option sockaddr
}.

(** [getifaddrs] gives the list, or [None] when it returns -1;
    [getnameinfo addr salen] gives its status and the text it leaves in
    the local buffer [ipv4]. *)
Record netif_env := {
  getifaddrs : option (list ifaddrs);
  getnameinfo : sockaddr -> Z -> Z * string
}.

(** What a function that stores through an index does: it returns, or
    it stores outside the array, where C gives the program no meaning and
    the model stops with the index. *)
Inductive outcome :=
| Returned (st : status_t) (gimli : gimli_t)
| OutOfBounds (idx : Z).

Definition sizeof_sockaddr_in : Z := 16.
Definition sizeof_sockaddr_in6 : Z := 28.

Section Netif.

(** The number of elements of [gimli.net], a constant of [gimli.h]. *)
Variable MAX_NETIFS : Z.

Definition in_net (idx : Z) : bool := (0 <=? idx) && (idx <? MAX_NETIFS).

(** The body of [for (ifa = ifaddr; ifa != NULL; ifa = ifa->ifa_next)]
    and the return after it. *)
Fixpoint netif_loop (env : netif_env) (ifa : list ifaddrs) (gimli : gimli_t)
  : outcome :=
  match ifa with
  | [] => Returned G_OK gimli
  | cur :: next =>
      match ifa_addr cur with
      | None => netif_loop env next gimli
      | Some addr =>
          if sa_family addr =? AF_INET then
            let family := sa_family addr in
            let idx := netifs gimli in
            if negb (in_net idx) then OutOfBounds idx else
            let gimli :=
              set_net gimli idx
                {| ifname := ifa_name cur; ipv4 := ipv4 (net gimli idx) |} in
            let '(s, host) :=
              getnameinfo env addr
                (if family =? AF_INET then sizeof_sockaddr_in
                 else sizeof_sockaddr_in6) in
            if negb (s =? 0) then Returned G_FAIL gimli else
            let gimli :=
              set_net gimli idx
                {| ifname := ifname (net gimli idx); ipv4 := host |} in
            let gimli := set_netifs gimli (netifs gimli + 1) in
            netif_loop env next gimli
          else netif_loop env next gimli
      end
  end.

Definition get_netif (env : netif_env) (gimli : gimli_t) : outcome :=
  match getifaddrs env with
  | None => Returned G_FAIL gimli
  | Some ifaddr => netif_loop env ifaddr (set_netifs gimli 0)
  end.

End Netif.

(** The entries [gimli.net[0]] ... [gimli.net[gimli.netifs - 1]], which
    are the ones a reader of the record walks. *)
Definition net_list (gimli : gimli_t) : list netif_t :=
  map (fun k => net gimli (Z.of_nat k)) (seq 0 (Z.to_nat (netifs gimli))).

(** ** handle_request *)

Inductive route_t :=
  R_CPU | R_LOAD | R_UPTIME | R_PROCS | R_CORES | R_NET | R_ALL | R_ERR.

(** [strncmp(buf, lit, sizeof (lit) - 2) == 0] *)
Definition matches (buf lit : string) : bool :=
  strncmp buf lit (sizeof_lit lit - 2) =? 0.

(** The chain of tests of [handle_request]. *)
Definition route (buf : string) : route_t :=
  if matches buf "GET /cpu" then R_CPU
  else if matches buf "GET /load" then R_LOAD
  else if matches buf "GET /uptime" then R_UPTIME
  else if matches buf "GET /procs" then R_PROCS
  else if matches buf "GET /cores" then R_CORES
  else if matches buf "GET /net" then R_NET
  else if matches buf "GET / HTTP" then R_ALL
  else R_ERR.

(** Modelled from the spec: the macros [IFNAME_JSON],
    [IFNAME_PRETTY_FIRST_JSON] and [IFNAME_PRETTY_JSON] of [gimli.h],
    which is not among the sources; each formats one interface as an
    object with the keys ifname and ipv4. *)
Definition IFNAME_JSON (name addr : string) : string :=
  "{" ++ q ++ "ifname" ++ q ++ ":" ++ q ++ name ++ q ++ ","
      ++ q ++ "ipv4" ++ q ++ ":" ++ q ++ addr ++ q ++ "}".

Definition IFNAME_PRETTY_FIRST_JSON (name addr : string) : string :=
  "{" ++ q ++ "ifname" ++ q ++ ": " ++ q ++ name ++ q ++ ", "
      ++ q ++ "ipv4" ++ q ++ ": " ++ q ++ addr ++ q ++ "}".

Definition IFNAME_PRETTY_JSON (name addr : string) : string :=
  IFNAME_PRETTY_FIRST_JSON name addr.

(** [for (int i = ...; i < gimli.netifs; i++)] appending to [output] one
    interface and, unless it is the last, the separator. *)
Fixpoint netifs_loop (gimli : gimli_t) (fmt : Z -> string -> string -> string)
    (sep : string) (fuel : nat) (i : Z) (output : string) : string :=
  match fuel with
  | O => output
  | S fuel' =>
      if i <? netifs gimli then
        let output :=
          output ++ fmt i (ifname (net gimli i)) (ipv4 (net gimli i)) in
        let output := if i + 1 <? netifs gimli then output ++ sep else output in
        netifs_loop gimli fmt sep fuel' (i + 1) output
      else output
  end.

Definition key (name : string) : string := q ++ name ++ q ++ ":".

Definition handle_request (gimli : gimli_t) (buf : string) (size : nat) : string :=
  match route buf with
  | R_CPU =>
      snprintf size
        ("{" ++ key "cpu" ++ "{"
         ++ key "us" ++ Printf.fmt_f 1 (cpu gimli CPU_USER) ++ ","
         ++ key "sy" ++ Printf.fmt_f 1 (cpu gimli CPU_SYSTEM) ++ ","
         ++ key "id" ++ Printf.fmt_f 1 (cpu gimli CPU_IDLE) ++ ","
         ++ key "wa" ++ Printf.fmt_f 1 (cpu gimli CPU_IOWAIT) ++ ","
         ++ key "ni" ++ Printf.fmt_f 1 (cpu gimli CPU_NICE)
         ++ "}" ++ "}" ++ crlf)
  | R_LOAD =>
      snprintf size
        ("{" ++ key "load" ++ "["
         ++ Printf.fmt_f 2 (load gimli LOAD_ONE) ++ ", "
         ++ Printf.fmt_f 2 (load gimli LOAD_FIVE) ++ ", "
         ++ Printf.fmt_f 2 (load gimli LOAD_FIFTEEN) ++ "]" ++ "}" ++ crlf)
  | R_UPTIME =>
      snprintf size
        ("{" ++ key "uptime" ++ "["
         ++ fmt_lu (uptime gimli / 86400) ++ ", "
         ++ fmt_0lu 1 (uptime gimli / 3600 mod 24) ++ ", "
         ++ fmt_0lu 2 (uptime gimli / 60 mod 60) ++ "]" ++ "}" ++ crlf)
  | R_PROCS =>
      snprintf size ("{" ++ key "procs" ++ fmt_lu (procs gimli) ++ "}" ++ crlf)
  | R_CORES =>
      snprintf size ("{" ++ key "cores" ++ fmt_d (cores gimli) ++ "}" ++ crlf)
  | R_NET =>
      let output := snprintf size ("{" ++ key "netifs" ++ "[") in
      let output :=
        netifs_loop gimli (fun _ => IFNAME_JSON) "," (Z.to_nat (netifs gimli)) 0
          output in
      output ++ "]}" ++ crlf
  | R_ALL =>
      let output :=
        snprintf size
          ("{" ++ nl
           ++ "    " ++ q ++ "cpu" ++ q ++ ": {" ++ nl
           ++ "        " ++ q ++ "us" ++ q ++ ": "
           ++ Printf.fmt_f 1 (cpu gimli CPU_USER) ++ "," ++ nl
           ++ "        " ++ q ++ "sy" ++ q ++ ": "
           ++ Printf.fmt_f 1 (cpu gimli CPU_SYSTEM) ++ "," ++ nl
           ++ "        " ++ q ++ "id" ++ q ++ ": "
           ++ Printf.fmt_f 1 (cpu gimli CPU_IDLE) ++ "," ++ nl
           ++ "        " ++ q ++ "wa" ++ q ++ ": "
           ++ Printf.fmt_f 1 (cpu gimli CPU_IOWAIT) ++ "," ++ nl
           ++ "        " ++ q ++ "ni" ++ q ++ ": "
           ++ Printf.fmt_f 1 (cpu gimli CPU_NICE) ++ nl
           ++ "    }," ++ nl
           ++ "    " ++ q ++ "load" ++ q ++ ": ["
           ++ Printf.fmt_f 2 (load gimli LOAD_ONE) ++ ", "
           ++ Printf.fmt_f 2 (load gimli LOAD_FIVE) ++ ", "
           ++ Printf.fmt_f 2 (load gimli LOAD_FIFTEEN) ++ "]," ++ nl
           ++ "    " ++ q ++ "uptime" ++ q ++ ": ["
           ++ fmt_lu (uptime gimli / 86400) ++ ", "
           ++ fmt_0lu 1 (uptime gimli / 3600 mod 24) ++ ", "
           ++ fmt_0lu 2 (uptime gimli / 60 mod 60) ++ "]," ++ nl
           ++ "    " ++ q ++ "procs" ++ q ++ ": " ++ fmt_lu (procs gimli) ++ "," ++ nl
           ++ "    " ++ q ++ "cores" ++ q ++ ": " ++ fmt_d (cores gimli) ++ "," ++ nl) in
      let output := output ++ snprintf size ("    " ++ q ++ "netifs" ++ q ++ ": [") in
      let output :=
        netifs_loop gimli
          (fun i => if i =? 0 then IFNAME_PRETTY_FIRST_JSON else IFNAME_PRETTY_JSON)
          ", " (Z.to_nat (netifs gimli)) 0 output in
      output ++ "]" ++ nl ++ "}" ++ crlf
  | R_ERR =>
      snprintf size ("{" ++ q ++ "err" ++ q ++ ": 1}" ++ crlf)
  end.

(** ** handle_connection *)

(** [sizeof (buf)] and [sizeof (output)]. *)
Definition BUF_SIZE : nat := 1024.
Definition OUTPUT_SIZE : nat := 2048.

(** [recv] gives the bytes received, at most [BUF_SIZE] of them, or
    [None] when it returns a value [<= 0]; each [send] succeeds or not. *)
Record conn_env := {
  recv : option string;
  send_header : bool;
  send_body : bool
}.

Inductive conn_outcome :=
| Conn_closed (sent : list string)
| Conn_out_of_bounds (idx : Z).

(** The last character received, [buf[len - 1]]. *)
Fixpoint last_char (data : string) : ascii :=
  match data with
  | EmptyString => NUL
  | String c EmptyString => c
  | String _ rest => last_char rest
  end.

(** The index where the terminating NUL is stored. *)
Definition nul_index (data : string) : Z :=
  let len := Z.of_nat (String.length data) in
  if Ascii.eqb (last_char data) LF then len - 1 else len.

Definition http_header : string :=
  "HTTP/1.1 200 OK" ++ crlf
  ++ "Content-Type: application/json; charset=utf-8" ++ crlf
  ++ crlf.

Definition handle_connection (gimli : gimli_t) (env : conn_env) : conn_outcome :=
  match recv env with
  | None => Conn_closed []
  | Some data =>
      let len := Z.of_nat (String.length data) in
      if len <=? 0 then Conn_closed [] else
      let idx := nul_index data in
      if negb ((0 <=? idx) && (idx <? Z.of_nat BUF_SIZE)) then
        Conn_out_of_bounds idx
      else
        let buf := cstr (substring 0 (Z.to_nat idx) data) in
        let output := snprintf OUTPUT_SIZE http_header in
        if negb (send_header env) then Conn_closed [] else
        let output' := handle_request gimli buf OUTPUT_SIZE in
        if negb (send_body env) then Conn_closed [output] else
        Conn_closed [output; output']
  end.

(** ** The sampler threads *)

(** The statement of [gimli_mine_cpu] before its loop:
    [gimli.cores = sysconf(_SC_NPROCESSORS_CONF)]. *)
Definition gimli_mine_cpu_init (nproc : Z) (gimli : gimli_t) : gimli_t :=
  set_cores gimli nproc.

(** The process: the shared record, and whether [gimli_mine_cpu] has
    entered its loop. *)
Record process := {
  shared : gimli_t;
  cpu_looping : bool
}.

Section Threads.

Variable MAX_NETIFS : Z.

(** One step of one thread: the assignment that opens
    [gimli_mine_cpu], one sampler call of one of the four loops, or a
    connection served from the record. *)
Inductive step : process -> process -> Prop :=
| step_mine_cpu_init : forall p nproc,
    cpu_looping p = false ->
    step p {| shared := gimli_mine_cpu_init nproc (shared p);
              cpu_looping := true |}
| step_mine_cpu : forall p env st g,
    cpu_looping p = true ->
    get_cpu_util env (shared p) = (st, g) ->
    step p {| shared := g; cpu_looping := true |}
| step_mine_load : forall p env st g,
    get_loadavg env (shared p) = (st, g) ->
    step p {| shared := g; cpu_looping := cpu_looping p |}
| step_mine_meminfo : forall p env st g,
    get_meminfo env (shared p) = (st, g) ->
    step p {| shared := g; cpu_looping := cpu_looping p |}
| step_mine_netif : forall p env st g,
    get_netif MAX_NETIFS env (shared p) = Returned st g ->
    step p {| shared := g; cpu_looping := cpu_looping p |}
| step_connection : forall p env sent,
    handle_connection (shared p) env = Conn_closed sent ->
    step p p.

Inductive run : process -> process -> Prop :=
| run_nil : forall p, run p p
| run_step : forall p p' p'', step p p' -> run p' p'' -> run p p''.

End Threads.

Definition process_start : process :=
  {| shared := gimli_zero; cpu_looping := false |}.

(** ** The statements of the specification *)

(** The ordered literals of the router with the route each selects, and
    the route of the first literal of a table that [buf] starts with. *)
Definition route_table : list (string * route_t) :=
  [ ("GET /cpu", R_CPU); ("GET /load", R_LOAD); ("GET /uptime", R_UPTIME);
    ("GET /procs", R_PROCS); ("GET /cores", R_CORES); ("GET /net", R_NET);
    ("GET / HTTP", R_ALL) ].

Fixpoint first_match (table : list (string * route_t)) (buf : string)
  : option route_t :=
  match table with
  | [] => None
  | (lit, r) :: rest => if prefix lit buf then Some r else first_match rest buf
  end.

(** No character of [p] is the NUL. *)
Fixpoint no_nul (p : string) : bool :=
  match p with
  | EmptyString => true
  | String c t => negb (Ascii.eqb c NUL) && no_nul t
  end.

(** The error object as the specification writes it, and as
    [handle_request] writes it. *)
Definition err_body_spec : string := "{" ++ q ++ "err" ++ q ++ ":1}".
Definition err_body : string := "{" ++ q ++ "err" ++ q ++ ": 1}" ++ crlf.

(** The value of a decimal numeral: [None] for the empty string and
    for a string with a character that is no digit; leading zeros count
    for nothing. *)
Definition digit_value (c : ascii) : option Z :=
  if (48 <=? code c) && (code c <=? 57) then Some (code c - 48) else None.

Fixpoint numeral_from (acc : Z) (s : string) : option Z :=
  match s with
  | EmptyString => Some acc
  | String c t =>
      match digit_value c with
      | Some d => numeral_from (10 * acc + d) t
      | None => None
      end
  end.

Definition numeral (s : string) : option Z :=
  match s with
  | EmptyString => None
  | _ => numeral_from 0 s
  end.

(** The uptime object as the specification writes it, and as
    [handle_request] writes it around the text [m] of the minutes. *)
Definition uptime_body_spec (d h m : Z) : string :=
  "{" ++ q ++ "uptime" ++ q ++ ":["
  ++ fmt_lu d ++ "," ++ fmt_lu h ++ "," ++ fmt_lu m ++ "]}".

Definition uptime_body (d h : Z) (m : string) : string :=
  "{" ++ q ++ "uptime" ++ q ++ ":["
  ++ fmt_lu d ++ ", " ++ fmt_lu h ++ ", " ++ m ++ "]}" ++ crlf.

(** The minutes of an uptime are rendered by a numeral of their value,
    and without padding from ten on. *)
Definition minutes_rendered (m : Z) : bool :=
  match numeral (fmt_0lu 2 m) with
  | Some v => (v =? m) && ((m <? 10) || String.eqb (fmt_0lu 2 m) (fmt_lu m))
  | None => false
  end.

(** *** Counters and percentages *)

(** The five counters of the first line of /proc/stat, as the integers
    the kernel prints. *)
Record counters := {
  user : Z;
  nice : Z;
  system : Z;
  idle : Z;
  iowait : Z
}.

Definition counter (c : counters) (k : cpu_idx) : Z :=
  match k with
  | CPU_USER => user c
  | CPU_NICE => nice c
  | CPU_SYSTEM => system c
  | CPU_IDLE => idle c
  | CPU_IOWAIT => iowait c
  end.

(** What [sscanf] converts from the line of a reading. *)
Definition stat_line (c : counters) : list LongDouble.ldouble :=
  map LongDouble.of_Z [user c; nice c; system c; idle c; iowait c].

(** The absolute delta of one counter between two readings, and the sum
    of the five. *)
Definition delta (old new : counters) (k : cpu_idx) : Z :=
  Z.abs (counter new k - counter old k).

Definition delta_sum (old new : counters) : Z :=
  delta old new CPU_USER + delta old new CPU_NICE + delta old new CPU_SYSTEM
  + delta old new CPU_IDLE + delta old new CPU_IOWAIT.

(** The share of one counter in the sum, in percent, as a rational. *)
Definition share (old new : counters) (k : cpu_idx) : Q :=
  (100 * (inject_Z (delta old new k) / inject_Z (delta_sum old new)))%Q.

(** The five deltas of a pair of samples are all zero. *)
Definition all_zero (diff : Cpu.gimli_cpu_t) : bool :=
  is_zero (Cpu.u diff) && is_zero (Cpu.n diff) && is_zero (Cpu.s diff)
  && is_zero (Cpu.i diff) && is_zero (Cpu.w diff).

(** The relative error of one rounding, [2 ^ -64]. *)
Definition u64 : Q := 1 # (2 ^ 64).

(** [mrs] holds the integer part of [N / D] and the position of the
    remainder with respect to one half. *)
Definition located (N D : Z) (mrs : shr_record) : Prop :=
  0 <= shr_m mrs /\
  exists rho,
    N = shr_m mrs * D + rho /\ 0 <= rho < D /\
    (shr_r mrs = true <-> D <= 2 * rho) /\
    (shr_s mrs = true <-> rho <> 0 /\ 2 * rho <> D).

(** The representation of the integer [n], [0 <= n < 2 ^ 64], with a
    mantissa of 64 digits. *)
Definition norm (n : Z) : spec_float :=
  match n with
  | Zpos p =>
      S754_finite false
        (Z.to_pos (Zpos p * 2 ^ (64 - Zpos (digits2_pos p))))
        (Zpos (digits2_pos p) - 64)
  | _ => S754_zero false
  end.

(** *** The interface list *)

(** The entries of an enumeration that [get_netif] keeps, whether
    [getnameinfo] accepts the address of one, and what is stored for it. *)
Definition is_ipv4 (cur : ifaddrs) : bool :=
  match ifa_addr cur with
  | Some addr => sa_family addr =? AF_INET
  | None => false
  end.

Definition resolved (env : netif_env) (cur : ifaddrs) : bool :=
  match ifa_addr cur with
  | Some addr => fst (getnameinfo env addr sizeof_sockaddr_in) =? 0
  | None => true
  end.

Definition entry_of (env : netif_env) (cur : ifaddrs) : netif_t :=
  {| ifname := ifa_name cur;
     ipv4 := match ifa_addr cur with
             | Some addr => snd (getnameinfo env addr sizeof_sockaddr_in)
             | None => EmptyString
             end |}.

(** The [len] entries of [gimli.net] from the index [from] on. *)
Definition net_seg (gimli : gimli_t) (from : Z) (len : nat) : list netif_t :=
  map (fun k => net gimli (from + Z.of_nat k)) (seq 0 len).

(** One turn of the loop of [get_netif] for an IPv4 entry whose address
    converts. *)
Definition store_entry (env : netif_env) (cur : ifaddrs) (gimli : gimli_t)
  : gimli_t :=
  set_netifs
    (set_net
       (set_net gimli (netifs gimli)
          {| ifname := ifa_name cur; ipv4 := ipv4 (net gimli (netifs gimli)) |})
       (netifs gimli) (entry_of env cur))
    (netifs gimli + 1).

(** ** Concrete inputs *)

(** Two readings of /proc/stat three seconds apart, and the results of
    the library calls of a cycle that reads them. *)
Definition reading_old : counters :=
  {| user := 100; nice := 0; system := 50; idle := 1000; iowait := 7 |}.

Definition reading_new : counters :=
  {| user := 160; nice := 0; system := 70; idle := 1215; iowait := 12 |}.

Definition cpu_cycle (old new : counters) : cpu_env :=
  {| cpu_fopen := true; cpu_fgets1 := Some (stat_line old);
     cpu_fgets2 := Some (stat_line new); cpu_fclose := true |}.

(** A line of /proc/loadavg from which only one number, 0.5, converts. *)
Definition half : spec_float := S754_finite false 1 (-1).

Definition one_value_env : load_env :=
  {| load_fopen := true; load_fgets := Some [half]; load_fclose := true |}.

Definition ipv4_addr (a : string) : sockaddr :=
  {| sa_family := AF_INET; sa_data := a |}.

Definition ipv6_addr (a : string) : sockaddr :=
  {| sa_family := AF_INET6; sa_data := a |}.

(** [getnameinfo] that accepts every address and gives its text. *)
Definition numeric_host (addr : sockaddr) (salen : Z) : Z * string :=
  (0, sa_data addr).

(** An enumeration of one interface whose address [getnameinfo]
    rejects, and a record that holds two interfaces of an earlier cycle. *)
Definition unresolved_env : netif_env :=
  {| getifaddrs :=
       Some [ {| ifa_name := "wlan0"; ifa_addr := Some (ipv4_addr "x") |} ];
     getnameinfo := fun _ _ => (1, EmptyString) |}.

Definition two_netifs : gimli_t :=
  set_netifs
    (set_net
       (set_net gimli_zero 0 {| ifname := "lo"; ipv4 := "127.0.0.1" |})
       1 {| ifname := "eth0"; ipv4 := "10.0.0.2" |})
    2.

(** Three interfaces with an IPv4 address. *)
Definition three_ipv4 : list ifaddrs :=
  [ {| ifa_name := "lo"; ifa_addr := Some (ipv4_addr "127.0.0.1") |};
    {| ifa_name := "eth0"; ifa_addr := Some (ipv4_addr "10.0.0.2") |};
    {| ifa_name := "eth1"; ifa_addr := Some (ipv4_addr "10.0.1.2") |} ].

Definition three_ipv4_env : netif_env :=
  {| getifaddrs := Some three_ipv4; getnameinfo := numeric_host |}.

(** One interface with an IPv4 address and one with an IPv6 address only. *)
Definition mixed : list ifaddrs :=
  [ {| ifa_name := "eth0"; ifa_addr := Some (ipv4_addr "192.168.1.5") |};
    {| ifa_name := "tun0"; ifa_addr := Some (ipv6_addr "fe80::1") |} ].

Definition mixed_env : netif_env :=
  {| getifaddrs := Some mixed; getnameinfo := numeric_host |}.




(** A request that fills the receive buffer and has no line feed. *)
Definition full_buffer_env : conn_env :=
  {| recv := Some (fill "A" BUF_SIZE); send_header := true; send_body := true |}.

(** ** Further inputs *)


Definition request_env (data : string) : conn_env :=
  {| recv := Some data; send_header := true; send_body := true |}.

(** The field of [struct sysinfo] that [get_meminfo] converts for each
    of the eight quantities (for [MEM_UNIT], the unit itself). *)
Definition si_quantity (si : sysinfo_t) (k : mem_idx) : Z :=
  match k with
  | TOTAL_RAM => si_totalram si
  | FREE_RAM => si_freeram si
  | SHARED_RAM => si_sharedram si
  | BUFFER_RAM => si_bufferram si
  | TOTAL_SWAP => si_totalswap si
  | FREE_SWAP => si_freeswap si
  | TOTAL_HIGH => si_totalhigh si
  | FREE_HIGH => si_freehigh si
  | MEM_UNIT => si_mem_unit si
  end.

(** A result of [sysinfo] on a machine with pages of 4096 bytes. *)
Definition sysinfo_4k : sysinfo_t :=
  {| si_uptime := 90061; si_totalram := 4000000; si_freeram := 1000000;
     si_sharedram := 2000; si_bufferram := 30000; si_totalswap := 500000;
     si_freeswap := 400000; si_procs := 200; si_totalhigh := 0;
     si_freehigh := 0; si_mem_unit := 4096 |}.

(** * Properties *)

(** ** Strings *)

Lemma code_inj : forall a b, code a = code b -> a = b.
Proof.
  unfold code; intros a b H.
  apply Nat2Z.inj in H.
  rewrite <- (ascii_nat_embedding a), <- (ascii_nat_embedding b).
  now rewrite H.
Qed.

Lemma prefix_app : forall p s, prefix p s = true -> exists rest, s = p ++ rest.
Proof.
  induction p as [|c p IH]; intros s H.
  - now exists s.
  - destruct s as [|b s]; simpl in H; [discriminate|].
    destruct (ascii_dec c b) as [->|]; [|discriminate].
    destruct (IH _ H) as [rest ->]. now exists rest.
Qed.

(** [strncmp] over the length of a NUL-free [p] is a prefix test. *)
Lemma strncmp_prefix : forall p buf rest,
  no_nul p = true ->
  (strncmp buf (p ++ rest) (String.length p) =? 0) = prefix p buf.
Proof.
  induction p as [|c p IH]; intros buf rest Hp.
  - now destruct buf.
  - simpl in Hp. apply andb_true_iff in Hp as [Hc Hp].
    apply negb_true_iff in Hc.
    destruct buf as [|b buf]; cbn [strncmp String.length head tail append prefix].
    + rewrite Ascii.eqb_sym, Hc. cbn [negb].
      apply Z.eqb_neq. intros H.
      assert (E : code NUL = code c) by lia.
      apply code_inj in E. subst c. discriminate.
    + destruct (ascii_dec c b) as [->|Hne].
      * rewrite Ascii.eqb_refl, Hc. cbn [negb]. now apply IH.
      * destruct (Ascii.eqb b c) eqn:E.
        { apply Ascii.eqb_eq in E. congruence. }
        cbn [negb]. apply Z.eqb_neq. intros H.
        apply Hne. symmetry. apply code_inj. lia.
Qed.

(** What each test of the router compares: the literal less its last
    character. *)
Lemma matches_prefix : forall buf,
  matches buf "GET /cpu" = prefix "GET /cp" buf /\
  matches buf "GET /load" = prefix "GET /loa" buf /\
  matches buf "GET /uptime" = prefix "GET /uptim" buf /\
  matches buf "GET /procs" = prefix "GET /proc" buf /\
  matches buf "GET /cores" = prefix "GET /core" buf /\
  matches buf "GET /net" = prefix "GET /ne" buf /\
  matches buf "GET / HTTP" = prefix "GET / HTT" buf.
Proof.
  intros buf. unfold matches.
  repeat split.
  - exact (strncmp_prefix "GET /cp" buf "u" eq_refl).
  - exact (strncmp_prefix "GET /loa" buf "d" eq_refl).
  - exact (strncmp_prefix "GET /uptim" buf "e" eq_refl).
  - exact (strncmp_prefix "GET /proc" buf "s" eq_refl).
  - exact (strncmp_prefix "GET /core" buf "s" eq_refl).
  - exact (strncmp_prefix "GET /ne" buf "t" eq_refl).
  - exact (strncmp_prefix "GET / HTT" buf "P" eq_refl).
Qed.

Lemma route_prefix : forall buf,
  route buf =
    if prefix "GET /cp" buf then R_CPU
    else if prefix "GET /loa" buf then R_LOAD
    else if prefix "GET /uptim" buf then R_UPTIME
    else if prefix "GET /proc" buf then R_PROCS
    else if prefix "GET /core" buf then R_CORES
    else if prefix "GET /ne" buf then R_NET
    else if prefix "GET / HTT" buf then R_ALL
    else R_ERR.
Proof.
  intros buf. unfold route.
  destruct (matches_prefix buf) as (-> & -> & -> & -> & -> & -> & ->).
  reflexivity.
Qed.

Lemma length_app : forall s t,
  String.length (s ++ t) = (String.length s + String.length t)%nat.
Proof.
  induction s as [|c s IH]; intros t; simpl; [reflexivity|].
  now rewrite IH.
Qed.

Lemma substring_all : forall s n,
  (String.length s <= n)%nat -> substring 0 n s = s.
Proof.
  induction s as [|c s IH]; intros n H; destruct n as [|n]; simpl in *;
    try reflexivity; try lia.
  rewrite IH; [reflexivity | lia].
Qed.

Lemma snprintf_fits : forall size text,
  (String.length text < size)%nat -> snprintf size text = text.
Proof.
  intros size text H. unfold snprintf. apply substring_all. lia.
Qed.

Lemma dec_digits_length : forall fuel n acc,
  (String.length acc <= String.length (dec_digits fuel n acc)
   <= fuel + String.length acc)%nat.
Proof.
  induction fuel as [|fuel IH]; intros n acc; simpl; [lia|].
  destruct (n / 10 =? 0); simpl; [lia|].
  specialize (IH (n / 10) (String (digit (n mod 10)) acc)). simpl in IH. lia.
Qed.

Lemma fmt_lu_length : forall n, (1 <= String.length (fmt_lu n) <= 20)%nat.
Proof.
  intros n. unfold fmt_lu. simpl.
  destruct (n / 10 =? 0); simpl; [lia|].
  pose proof (dec_digits_length 19 (n / 10) (String (digit (n mod 10)) EmptyString)) as H.
  simpl in H. lia.
Qed.

Lemma fmt_0lu_1 : forall n, fmt_0lu 1 n = fmt_lu n.
Proof.
  intros n. unfold fmt_0lu.
  pose proof (fmt_lu_length n) as H.
  replace (1 - String.length (fmt_lu n))%nat with 0%nat by lia.
  reflexivity.
Qed.

Lemma fmt_0lu_length : forall w n,
  (String.length (fmt_0lu w n) <= w + 20)%nat.
Proof.
  intros w n. unfold fmt_0lu. rewrite length_app.
  pose proof (fmt_lu_length n).
  assert (forall k, String.length (zeros k) = k) as ->
    by (induction k; simpl; congruence).
  lia.
Qed.

(** ** The router *)

(** C2, as corrected.  The router tests the literals GET /cpu,
    GET /load, GET /uptime, GET /procs, GET /cores, GET /net and
    GET / HTTP in this order and the first match wins: a request that
    starts with one of them is given the route of the first such literal.
    The last literal is GET / HTTP rather than GET /, and the aggregate
    is selected only for requests that start with GET, a space, the
    slash and another space; GET /unknown is given the error route. *)
Theorem route_first_match : forall buf,
  (forall r, first_match route_table buf = Some r -> route buf = r) /\
  (route buf = R_ALL -> prefix "GET / " buf = true) /\
  route "GET /unknown" = R_ERR.
Proof.
  intros buf. split; [|split; [|reflexivity]].
  - intros r. cbn [first_match route_table].
    repeat match goal with
    | |- context [prefix ?lit buf] =>
        let E := fresh "E" in
        destruct (prefix lit buf) eqn:E;
        [ apply prefix_app in E as [rest ->];
          intros [= <-]; rewrite route_prefix; reflexivity | ]
    end.
    discriminate.
  - rewrite route_prefix.
    repeat match goal with
    | |- context [if prefix ?lit buf then _ else _] =>
        let E := fresh "E" in
        destruct (prefix lit buf) eqn:E; try discriminate
    end.
    intros _.
    match goal with
    | E : prefix "GET / HTT" buf = true |- _ =>
        apply prefix_app in E as [rest ->]
    end.
    reflexivity.
Qed.

Lemma route_first_match_witness :
  first_match route_table "GET /load HTTP/1.1" = Some R_LOAD /\
  route "GET /load HTTP/1.1" = R_LOAD.
Proof.
  split; [reflexivity|].
  apply (proj1 (route_first_match "GET /load HTTP/1.1")). reflexivity.
Defined.

(** C2, as stated, fails: GET /unknown has the form GET /... and is
    given the error route, not the aggregate. *)
Lemma unknown_route_is_error :
  prefix "GET /" "GET /unknown" = true /\
  route "GET /unknown" = R_ERR /\
  route "GET /unknown" <> R_ALL.
Proof. repeat split; try reflexivity. vm_compute. discriminate. Qed.

(** C3, as corrected.  For every request that no test of the router
    matches, the body is the text of the error object with a space after
    its colon, followed by a carriage return and a line feed. *)
Theorem handle_request_err : forall gimli buf,
  route buf = R_ERR ->
  handle_request gimli buf OUTPUT_SIZE = err_body.
Proof.
  intros gimli buf H. unfold handle_request. rewrite H. reflexivity.
Qed.

Lemma handle_request_err_witness :
  route "GET /unknown" = R_ERR /\
  handle_request gimli_zero "GET /unknown" OUTPUT_SIZE = err_body.
Proof.
  split; [reflexivity|].
  apply (handle_request_err gimli_zero "GET /unknown"). reflexivity.
Defined.

(** C3, as stated, fails: the body for GET /unknown is not the error
    object without the space, whatever the terminator. *)
Lemma err_body_has_space :
  route "GET /unknown" = R_ERR /\
  handle_request gimli_zero "GET /unknown" OUTPUT_SIZE <> err_body_spec /\
  handle_request gimli_zero "GET /unknown" OUTPUT_SIZE <> err_body_spec ++ nl /\
  handle_request gimli_zero "GET /unknown" OUTPUT_SIZE <> err_body_spec ++ crlf.
Proof. repeat split; vm_compute; discriminate. Qed.

Lemma minutes_numeral : forall m,
  0 <= m < 60 ->
  numeral (fmt_0lu 2 m) = Some m /\ (10 <= m -> fmt_0lu 2 m = fmt_lu m).
Proof.
  intros m Hm.
  assert (Hall : forallb minutes_rendered (map Z.of_nat (seq 0 60)) = true)
    by (vm_compute; reflexivity).
  rewrite forallb_forall in Hall.
  assert (Hin : In m (map Z.of_nat (seq 0 60))).
  { apply in_map_iff. exists (Z.to_nat m). split; [lia|]. apply in_seq. lia. }
  specialize (Hall m Hin). unfold minutes_rendered in Hall.
  destruct (numeral (fmt_0lu 2 m)) as [v|]; [|discriminate].
  apply andb_true_iff in Hall as [Hv Hp]. apply Z.eqb_eq in Hv. subst v.
  split; [reflexivity|]. intros H10.
  apply orb_true_iff in Hp as [Hp|Hp]; [apply Z.ltb_lt in Hp; lia|].
  now apply String.eqb_eq in Hp.
Qed.

(** C7, as corrected.  For every uptime in the range of an
    [unsigned long], GET /uptime renders an array of three elements
    separated by a comma and a space and followed by CR LF: the days
    [uptime / 86400] and the hours [uptime / 3600 mod 24] as plain decimal
    numbers, and for the minutes a decimal numeral whose value is
    [uptime / 60 mod 60], which from ten on is the plain number.  How
    minutes below ten are written is not part of the statement. *)
Theorem handle_request_uptime : forall gimli buf,
  route buf = R_UPTIME ->
  0 <= uptime gimli < 2 ^ 64 ->
  exists m,
    handle_request gimli buf OUTPUT_SIZE
    = uptime_body (uptime gimli / 86400) (uptime gimli / 3600 mod 24) m /\
    numeral m = Some (uptime gimli / 60 mod 60) /\
    (10 <= uptime gimli / 60 mod 60 -> m = fmt_lu (uptime gimli / 60 mod 60)).
Proof.
  intros gimli buf H Hu.
  exists (fmt_0lu 2 (uptime gimli / 60 mod 60)).
  pose proof (Z.mod_pos_bound (uptime gimli / 60) 60 ltac:(lia)) as Hm.
  destruct (minutes_numeral _ Hm) as [Hn Hp].
  split; [|split; assumption].
  unfold handle_request. rewrite H. rewrite fmt_0lu_1.
  rewrite snprintf_fits; [reflexivity|].
  cbv [key q crlf chr OUTPUT_SIZE].
  repeat rewrite length_app.
  pose proof (fmt_lu_length (uptime gimli / 86400)).
  pose proof (fmt_lu_length (uptime gimli / 3600 mod 24)).
  pose proof (fmt_0lu_length 2 (uptime gimli / 60 mod 60)).
  cbn [String.length]. lia.
Qed.

Lemma handle_request_uptime_witness :
  route "GET /uptime" = R_UPTIME /\
  exists m,
    handle_request (set_uptime gimli_zero 90061) "GET /uptime" OUTPUT_SIZE
    = uptime_body 1 1 m /\
    numeral m = Some 1.
Proof.
  split; [reflexivity|].
  destruct (handle_request_uptime (set_uptime gimli_zero 90061) "GET /uptime"
              eq_refl) as (m & E & Hn & _).
  - cbn. lia.
  - exists m. split; [exact E | exact Hn].
Defined.

(** C7, as stated, fails: 90061 seconds are not rendered as the array
    1,1,1, whatever the terminator. *)
Lemma uptime_90061_padded :
  route "GET /uptime" = R_UPTIME /\
  handle_request (set_uptime gimli_zero 90061) "GET /uptime" OUTPUT_SIZE
    <> uptime_body_spec 1 1 1 /\
  handle_request (set_uptime gimli_zero 90061) "GET /uptime" OUTPUT_SIZE
    <> uptime_body_spec 1 1 1 ++ nl /\
  handle_request (set_uptime gimli_zero 90061) "GET /uptime" OUTPUT_SIZE
    <> uptime_body_spec 1 1 1 ++ crlf.
Proof. repeat split; vm_compute; discriminate. Qed.

(** ** The connection handler *)

Lemma last_char_fill : forall c n, last_char (fill c (S n)) = c.
Proof.
  induction n as [|n IH]; [reflexivity|].
  change (fill c (S (S n))) with (String c (fill c (S n))).
  cbn [last_char]. exact IH.
Qed.

Lemma length_fill : forall c n, String.length (fill c n) = n.
Proof. induction n; simpl; congruence. Qed.

(** Short of a full buffer, or with a line feed at the end, the NUL is
    stored inside [buf]. *)
Lemma nul_index_in_bounds : forall data,
  (0 < String.length data <= BUF_SIZE)%nat ->
  (String.length data < BUF_SIZE)%nat \/ last_char data = LF ->
  0 <= nul_index data < Z.of_nat BUF_SIZE.
Proof.
  intros data Hlen H. unfold nul_index.
  destruct (Ascii.eqb_spec (last_char data) LF) as [E|E]; [lia|].
  destruct H as [H|H]; [lia | contradiction].
Qed.

(** C10 fails on the code.  For every request that fills the receive
    buffer and does not end in a line feed, the handler stores the NUL
    at the index [BUF_SIZE], one past the last element of [buf]. *)
Theorem handle_connection_full_buffer : forall gimli env data,
  recv env = Some data ->
  String.length data = BUF_SIZE ->
  last_char data <> LF ->
  nul_index data = Z.of_nat BUF_SIZE /\
  handle_connection gimli env = Conn_out_of_bounds (Z.of_nat BUF_SIZE).
Proof.
  intros gimli env data Hrecv Hlen Hlast.
  assert (Hidx : nul_index data = Z.of_nat BUF_SIZE).
  { unfold nul_index. rewrite Hlen.
    destruct (Ascii.eqb_spec (last_char data) LF); [contradiction | reflexivity]. }
  split; [exact Hidx|].
  unfold handle_connection. rewrite Hrecv, Hidx, Hlen.
  rewrite Z.ltb_irrefl, andb_false_r. reflexivity.
Qed.

Lemma handle_connection_full_buffer_witness :
  nul_index (fill "A" BUF_SIZE) = Z.of_nat BUF_SIZE /\
  handle_connection gimli_zero full_buffer_env
  = Conn_out_of_bounds (Z.of_nat BUF_SIZE).
Proof.
  apply (handle_connection_full_buffer gimli_zero full_buffer_env
           (fill "A" BUF_SIZE));
    [ reflexivity | apply length_fill
    | change BUF_SIZE with (S 1023); rewrite last_char_fill; discriminate ].
Defined.

(** ** The CPU sampler *)

Lemma add_zero_zero : forall a b,
  is_zero a = true -> is_zero b = true -> is_zero (LongDouble.add a b) = true.
Proof.
  intros [sa| | |] [sb| | |]; try discriminate.
  intros _ _. now destruct sa, sb.
Qed.

Lemma percent_zero_zero : forall d tot,
  is_zero d = true -> is_zero tot = true -> percent d tot = S754_nan.
Proof.
  intros [sd| | |] [st| | |]; try discriminate. reflexivity.
Qed.

Lemma cpu_tot_zero : forall diff,
  all_zero diff = true -> is_zero (cpu_tot diff) = true.
Proof.
  intros diff H. unfold all_zero in H.
  repeat (apply andb_true_iff in H as [H ?]).
  unfold cpu_tot. repeat apply add_zero_zero; assumption.
Qed.

Lemma abs_diff_same : forall x, is_finite x = true -> is_zero (abs_diff x x) = true.
Proof.
  intros [sx| | |sx m e]; try discriminate; intros _.
  - now destruct sx.
  - unfold abs_diff, LongDouble.gt, SFltb, SFcompare.
    rewrite Z.compare_refl, Pos.compare_cont_refl.
    assert (E : LongDouble.sub (S754_finite sx m e) (S754_finite sx m e)
                = S754_zero false).
    { unfold LongDouble.sub, SFsub, shl_align.
      cbv zeta. rewrite Z.min_id, (Z.sub_diag e). cbn [fst].
      rewrite Z.sub_diag. reflexivity. }
    rewrite E. now destruct sx.
Qed.

(** Two identical finite samples have five zero deltas. *)
Lemma cpu_diff_same : forall c,
  is_finite (Cpu.u c) && is_finite (Cpu.n c) && is_finite (Cpu.s c)
  && is_finite (Cpu.i c) && is_finite (Cpu.w c) = true ->
  all_zero (cpu_diff c c) = true.
Proof.
  intros c H. repeat (apply andb_true_iff in H as [H ?]).
  unfold all_zero, cpu_diff. cbn [Cpu.u Cpu.n Cpu.s Cpu.i Cpu.w].
  now rewrite !abs_diff_same.
Qed.

(** C1 fails on the code.  For every pair of samples whose five
    deltas are all zero, [get_cpu_util] returns [G_OK] and stores a NaN
    in each of the five percentages. *)
Theorem get_cpu_util_zero_delta : forall env gimli line1 line2,
  cpu_fopen env = true ->
  cpu_fgets1 env = Some line1 ->
  cpu_fgets2 env = Some line2 ->
  cpu_fclose env = true ->
  4 <= fst (sscanf_cpu line1 cpu_zero) ->
  4 <= fst (sscanf_cpu line2 cpu_zero) ->
  all_zero (cpu_diff (snd (sscanf_cpu line2 cpu_zero))
                     (snd (sscanf_cpu line1 cpu_zero))) = true ->
  fst (get_cpu_util env gimli) = G_OK /\
  forall k, cpu (snd (get_cpu_util env gimli)) k = S754_nan.
Proof.
  intros env gimli line1 line2 Ho H1 H2 Hc N1 N2 Hz.
  unfold get_cpu_util. rewrite Ho, H1, H2, Hc. cbn [negb].
  destruct (sscanf_cpu line1 cpu_zero) as [n1 old].
  destruct (sscanf_cpu line2 cpu_zero) as [n2 new].
  cbn [fst snd] in *.
  destruct (n1 <? 4) eqn:E1; [apply Z.ltb_lt in E1; lia|].
  destruct (n2 <? 4) eqn:E2; [apply Z.ltb_lt in E2; lia|].
  split; [reflexivity|].
  pose proof (cpu_tot_zero _ Hz) as Ht.
  unfold all_zero in Hz.
  repeat (apply andb_true_iff in Hz as [Hz ?]).
  intros k. cbn [snd].
  destruct k; cbn; apply percent_zero_zero; assumption.
Qed.

Lemma get_cpu_util_zero_delta_witness :
  fst (get_cpu_util (cpu_cycle reading_old reading_old) gimli_zero) = G_OK /\
  forall k,
    cpu (snd (get_cpu_util (cpu_cycle reading_old reading_old) gimli_zero)) k
    = S754_nan.
Proof.
  apply (get_cpu_util_zero_delta (cpu_cycle reading_old reading_old) gimli_zero
           (stat_line reading_old) (stat_line reading_old));
    try reflexivity; vm_compute; discriminate.
Defined.

(** The paths through [get_cpu_util]: one goal for each return. *)
Ltac get_cpu_util_paths env :=
  unfold get_cpu_util;
  destruct (cpu_fopen env); cbn [negb];
  [ destruct (cpu_fgets1 env) as [?line1|];
    [ destruct (sscanf_cpu line1 cpu_zero) as [?n1 ?old];
      destruct (n1 <? 4);
      [ | destruct (cpu_fgets2 env) as [?line2|];
          [ destruct (sscanf_cpu line2 cpu_zero) as [?n2 ?new];
            destruct (n2 <? 4);
            [ | destruct (cpu_fclose env); cbn [negb] ]
          | ] ]
    | ]
  | ].

(** The failing paths of [get_cpu_util] and of [get_meminfo] return
    before any store to the record. *)
Lemma get_cpu_util_fail : forall env gimli,
  fst (get_cpu_util env gimli) = G_FAIL -> snd (get_cpu_util env gimli) = gimli.
Proof.
  intros env gimli. get_cpu_util_paths env; try reflexivity. discriminate.
Qed.

Lemma get_meminfo_fail : forall env gimli,
  fst (get_meminfo env gimli) = G_FAIL -> snd (get_meminfo env gimli) = gimli.
Proof.
  intros [meminfo|] gimli; [discriminate | reflexivity].
Qed.

(** ** Failing cycles of the load and interface samplers *)

(** C4 fails on the code.  A cycle of [get_loadavg] in which only one
    number converts returns [G_FAIL] with [load[0]] overwritten, and a
    cycle of [get_netif] in which [getnameinfo] fails returns [G_FAIL]
    with the count reset and the name of the first entry overwritten. *)
Theorem failing_cycle_not_atomic :
  (forall gimli a,
     get_loadavg
       {| load_fopen := true; load_fgets := Some [a]; load_fclose := true |} gimli
     = (G_FAIL, set_load gimli 0 a)) /\
  (fst (get_loadavg one_value_env gimli_zero) = G_FAIL /\
   load (snd (get_loadavg one_value_env gimli_zero)) 0 = half /\
   load gimli_zero 0 = S754_zero false) /\
  (exists g,
     get_netif 8 unresolved_env two_netifs = Returned G_FAIL g /\
     netifs g = 0 /\ netifs two_netifs = 2 /\
     ifname (net g 0) = "wlan0" /\ ifname (net two_netifs 0) = "lo").
Proof.
  split; [|split].
  - reflexivity.
  - repeat split.
  - eexists. repeat split.
Qed.


(** ** The interface sampler *)

Lemma net_seg_S : forall gimli from len,
  net_seg gimli from (S len) = net gimli from :: net_seg gimli (from + 1) len.
Proof.
  intros gimli from len. unfold net_seg.
  cbn [seq map]. rewrite Z.add_0_r. f_equal.
  rewrite <- seq_shift, map_map.
  apply map_ext. intros k. f_equal. lia.
Qed.

Lemma net_list_seg : forall gimli,
  net_list gimli = net_seg gimli 0 (Z.to_nat (netifs gimli)).
Proof. reflexivity. Qed.

Section NetifFacts.

Variable MAX_NETIFS : Z.
Variable env : netif_env.

Lemma netif_loop_cons_ipv4 : forall cur next gimli,
  is_ipv4 cur = true -> resolved env cur = true ->
  in_net MAX_NETIFS (netifs gimli) = true ->
  netif_loop MAX_NETIFS env (cur :: next) gimli
  = netif_loop MAX_NETIFS env next (store_entry env cur gimli).
Proof.
  intros cur next gimli Hv4 Hres Hin.
  unfold is_ipv4, resolved in *. cbn [netif_loop].
  unfold store_entry, entry_of.
  destruct (ifa_addr cur) as [addr|]; [|discriminate].
  rewrite Hv4, Hin. cbn [negb].
  destruct (getnameinfo env addr sizeof_sockaddr_in) as [s host] eqn:E.
  cbn [fst snd] in *. rewrite Hres. cbn [negb].
  cbn [set_net net netifs]. unfold upd. rewrite Z.eqb_refl. reflexivity.
Qed.

Lemma netif_loop_cons_other : forall cur next gimli,
  is_ipv4 cur = false ->
  netif_loop MAX_NETIFS env (cur :: next) gimli
  = netif_loop MAX_NETIFS env next gimli.
Proof.
  intros cur next gimli Hv4. unfold is_ipv4 in Hv4. cbn [netif_loop].
  destruct (ifa_addr cur) as [addr|]; [|reflexivity].
  now rewrite Hv4.
Qed.

Lemma netif_loop_cons_full : forall cur next gimli,
  is_ipv4 cur = true ->
  in_net MAX_NETIFS (netifs gimli) = false ->
  netif_loop MAX_NETIFS env (cur :: next) gimli = OutOfBounds (netifs gimli).
Proof.
  intros cur next gimli Hv4 Hin. unfold is_ipv4 in Hv4. cbn [netif_loop].
  destruct (ifa_addr cur) as [addr|]; [|discriminate].
  now rewrite Hv4, Hin.
Qed.

(** Within the capacity the loop returns [G_OK], having appended the
    IPv4 entries in order from the index it started at. *)
Lemma netif_loop_stores : forall ifa gimli,
  forallb (resolved env) (filter is_ipv4 ifa) = true ->
  0 <= netifs gimli ->
  netifs gimli + Z.of_nat (List.length (filter is_ipv4 ifa)) <= MAX_NETIFS ->
  exists g,
    netif_loop MAX_NETIFS env ifa gimli = Returned G_OK g /\
    netifs g = netifs gimli + Z.of_nat (List.length (filter is_ipv4 ifa)) /\
    net_seg g (netifs gimli) (List.length (filter is_ipv4 ifa))
      = map (entry_of env) (filter is_ipv4 ifa) /\
    (forall k, k < netifs gimli -> net g k = net gimli k).
Proof.
  induction ifa as [|cur next IH]; intros gimli Hres Hlo Hhi.
  - exists gimli. cbn. repeat split; lia.
  - cbn [filter] in *. destruct (is_ipv4 cur) eqn:Hv4.
    + cbn [forallb List.length] in *.
      apply andb_true_iff in Hres as [Hcur Hres].
      rewrite netif_loop_cons_ipv4; try assumption.
      2:{ unfold in_net. apply andb_true_iff. split; [apply Z.leb_le | apply Z.ltb_lt]; lia. }
      destruct (IH (store_entry env cur gimli) Hres) as (g & Hg & Hn & Hseg & Hold).
      { cbn. lia. }
      { cbn [store_entry set_netifs netifs]. lia. }
      cbn [store_entry set_netifs netifs] in Hn, Hseg, Hold.
      exists g. split; [exact Hg|]. split; [lia|]. split.
      * rewrite net_seg_S. cbn [map]. f_equal; [|exact Hseg].
        rewrite Hold by lia. unfold store_entry.
        cbn [net set_net set_netifs]. unfold upd.
        now rewrite Z.eqb_refl.
      * intros k Hk. rewrite Hold by lia. unfold store_entry.
        cbn [net set_net set_netifs]. unfold upd.
        destruct (k =? netifs gimli) eqn:E; [apply Z.eqb_eq in E; lia|].
        reflexivity.
    + rewrite netif_loop_cons_other by assumption. now apply IH.
Qed.

(** Past the capacity the loop stores at the index [MAX_NETIFS]. *)
Lemma netif_loop_overflow : forall ifa gimli,
  forallb (resolved env) (filter is_ipv4 ifa) = true ->
  0 <= netifs gimli <= MAX_NETIFS ->
  MAX_NETIFS < netifs gimli + Z.of_nat (List.length (filter is_ipv4 ifa)) ->
  netif_loop MAX_NETIFS env ifa gimli = OutOfBounds MAX_NETIFS.
Proof.
  induction ifa as [|cur next IH]; intros gimli Hres Hlo Hhi.
  - cbn in Hhi. lia.
  - cbn [filter] in *. destruct (is_ipv4 cur) eqn:Hv4.
    + cbn [forallb List.length] in *.
      apply andb_true_iff in Hres as [Hcur Hres].
      destruct (Z.eq_dec (netifs gimli) MAX_NETIFS) as [E|E].
      * rewrite netif_loop_cons_full; [now rewrite E | assumption |].
        unfold in_net. rewrite E, Z.ltb_irrefl. apply andb_false_r.
      * rewrite netif_loop_cons_ipv4; try assumption.
        2:{ unfold in_net. apply andb_true_iff.
            split; [apply Z.leb_le | apply Z.ltb_lt]; lia. }
        apply IH; [assumption | cbn; lia | cbn; lia].
    + rewrite netif_loop_cons_other by assumption. now apply IH.
Qed.


End NetifFacts.

(** C5 fails on the code.  Whatever the capacity, an enumeration with
    more IPv4 interfaces than [gimli.net] has elements makes [get_netif]
    store at the index [MAX_NETIFS], outside the array. *)
Theorem get_netif_overflow : forall MAX_NETIFS env ifa gimli,
  0 <= MAX_NETIFS ->
  getifaddrs env = Some ifa ->
  forallb (resolved env) (filter is_ipv4 ifa) = true ->
  MAX_NETIFS < Z.of_nat (List.length (filter is_ipv4 ifa)) ->
  get_netif MAX_NETIFS env gimli = OutOfBounds MAX_NETIFS.
Proof.
  intros MAX_NETIFS env ifa gimli Hmax Hifa Hres Hlen.
  unfold get_netif. rewrite Hifa.
  apply netif_loop_overflow; cbn; [assumption | lia | lia].
Qed.

Lemma get_netif_overflow_witness :
  get_netif 2 three_ipv4_env gimli_zero = OutOfBounds 2.
Proof.
  apply (get_netif_overflow 2 three_ipv4_env three_ipv4 gimli_zero);
    [lia | reflexivity | reflexivity | simpl; lia].
Defined.

(** C8.  For every enumeration whose IPv4 addresses convert and fit
    the array, [get_netif] returns [G_OK] and the interface list of the
    record is exactly the entries of the enumeration whose address family
    is [AF_INET], in order. *)
Theorem get_netif_keeps_ipv4 : forall MAX_NETIFS env ifa gimli,
  getifaddrs env = Some ifa ->
  forallb (resolved env) (filter is_ipv4 ifa) = true ->
  Z.of_nat (List.length (filter is_ipv4 ifa)) <= MAX_NETIFS ->
  exists g,
    get_netif MAX_NETIFS env gimli = Returned G_OK g /\
    netifs g = Z.of_nat (List.length (filter is_ipv4 ifa)) /\
    net_list g = map (entry_of env) (filter is_ipv4 ifa).
Proof.
  intros MAX_NETIFS env ifa gimli Hifa Hres Hlen.
  unfold get_netif. rewrite Hifa.
  destruct (netif_loop_stores MAX_NETIFS env ifa (set_netifs gimli 0) Hres)
    as (g & Hg & Hn & Hseg & _); cbn [set_netifs netifs] in *; try lia.
  exists g. split; [exact Hg|]. split; [lia|].
  rewrite net_list_seg, Hn. cbn [Z.add]. now rewrite Nat2Z.id.
Qed.

Lemma get_netif_keeps_ipv4_witness :
  exists g,
    get_netif 8 mixed_env gimli_zero = Returned G_OK g /\
    netifs g = 1 /\
    net_list g = [ {| ifname := "eth0"; ipv4 := "192.168.1.5" |} ].
Proof.
  apply (get_netif_keeps_ipv4 8 mixed_env mixed gimli_zero);
    [reflexivity | reflexivity | simpl; lia].
Defined.

(** ** The core count *)

















(** ** Rounding in [long double]

    The digits of a mantissa. *)

(** The number of binary digits of a mantissa, and what it bounds. *)
Lemma digits2_size : forall p, digits2_pos p = Pos.size p.
Proof. induction p; simpl; congruence. Qed.

Lemma digits_bounds : forall p,
  2 ^ (Zpos (digits2_pos p) - 1) <= Zpos p < 2 ^ Zpos (digits2_pos p).
Proof.
  intros p. rewrite digits2_size.
  pose proof (Pos.size_gt p) as Hgt. pose proof (Pos.size_le p) as Hle.
  apply Pos2Z.pos_lt_pos in Hgt. apply Pos2Z.pos_le_pos in Hle.
  rewrite Pos2Z.inj_pow in Hgt, Hle.
  replace (Zpos (Pos.size p)) with (Zpos (Pos.size p) - 1 + 1) in Hle at 1 by lia.
  rewrite Z.pow_add_r in Hle by lia.
  change (2 ^ 1) with 2 in Hle. lia.
Qed.

(** The bounds determine the number of digits. *)
Lemma digits_unique : forall p d,
  2 ^ (d - 1) <= Zpos p < 2 ^ d -> Zpos (digits2_pos p) = d.
Proof.
  intros p d [Hlo Hhi].
  pose proof (digits_bounds p) as [Blo Bhi].
  assert (0 < d).
  { destruct (Z.ltb_spec 0 d) as [|Hd]; [assumption|].
    assert (2 ^ d <= 1).
    { destruct (Z.eq_dec d 0) as [->|]; [simpl; lia|].
      rewrite Z.pow_neg_r by lia. lia. }
    lia. }
  assert (d - 1 < Zpos (digits2_pos p)).
  { apply (Z.pow_lt_mono_r_iff 2); lia. }
  assert (Zpos (digits2_pos p) - 1 < d).
  { apply (Z.pow_lt_mono_r_iff 2); lia. }
  lia.
Qed.

(** ** Iterated shifts *)

(** An invariant indexed by the number of iterations. *)
Lemma iter_pos_ind : forall (A : Type) (f : A -> A) (P : Z -> A -> Prop),
  (forall k x, 0 <= k -> P k x -> P (k + 1) (f x)) ->
  forall p x k, 0 <= k -> P k x -> P (k + Zpos p) (SpecFloat.iter_pos f p x).
Proof.
  intros A f P Hf. induction p as [p IH|p IH|]; intros x k Hk Hx; cbn [SpecFloat.iter_pos].
  - replace (k + Zpos p~1) with (k + 1 + Zpos p + Zpos p) by lia.
    apply IH; [lia|]. apply IH; [lia|]. now apply Hf.
  - replace (k + Zpos p~0) with (k + Zpos p + Zpos p) by lia.
    apply IH; [lia|]. now apply IH.
  - now apply Hf.
Qed.

(** One shift to the right doubles the unit and keeps the position of
    the remainder. *)
Lemma shr_1_located : forall N D mrs,
  located N D mrs -> located N (2 * D) (shr_1 mrs) /\ shr_m (shr_1 mrs) = shr_m mrs / 2.
Proof.
  intros N D [m r s] (Hm & rho & HN & Hrho & Hr & Hs). cbn [shr_m shr_r shr_s] in *.
  assert (Hrs : orb r s = true <-> rho <> 0).
  { destruct r, s; cbn; intuition lia. }
  destruct m as [|[p|p|]|p]; try lia; unfold located;
    cbn [shr_1 shr_m shr_r shr_s].
  - split; [|reflexivity].
    split; [lia|]. exists rho. rewrite Hrs.
    repeat split; try lia; intros; try lia; try discriminate.
  - split; [|rewrite Pos2Z.inj_xI; apply (Z.div_unique _ 2 _ 1); lia].
    split; [lia|]. exists (D + rho). rewrite Hrs.
    repeat split; try lia; intros; try lia.
  - split; [|rewrite Pos2Z.inj_xO; apply (Z.div_unique _ 2 _ 0); lia].
    split; [lia|]. exists rho. rewrite Hrs.
    repeat split; try lia; intros; try lia; try discriminate.
  - split; [|reflexivity].
    split; [lia|]. exists (D + rho). rewrite Hrs.
    repeat split; try lia; intros; try lia.
Qed.

(** So do [p] shifts. *)
Lemma shr_located : forall N D mrs p,
  located N D mrs ->
  located N (D * 2 ^ Zpos p) (SpecFloat.iter_pos shr_1 p mrs) /\
  shr_m (SpecFloat.iter_pos shr_1 p mrs) = shr_m mrs / 2 ^ Zpos p.
Proof.
  intros N D mrs p H.
  apply (iter_pos_ind _ shr_1
           (fun k x => located N (D * 2 ^ k) x /\ shr_m x = shr_m mrs / 2 ^ k)
           ) with (k := 0) (p := p) (x := mrs); [|lia|].
  - intros k x Hk [Hx Hm].
    destruct (shr_1_located _ _ _ Hx) as [Hx' Hm'].
    rewrite Z.pow_add_r by lia. change (2 ^ 1) with 2.
    split.
    + replace (D * (2 ^ k * 2)) with (2 * (D * 2 ^ k)) by ring. exact Hx'.
    + rewrite Hm', Hm. rewrite Z.div_div by lia. reflexivity.
  - rewrite Z.mul_1_r, Z.div_1_r. now split.
Qed.

(** Rounding to nearest, ties to even, moves the mantissa by half a unit
    at most. *)
Lemma round_nearest_even_located : forall N D mrs,
  0 < D -> located N D mrs ->
  let mr := round_nearest_even (shr_m mrs) (loc_of_shr_record mrs) in
  shr_m mrs <= mr <= shr_m mrs + 1 /\ 2 * Z.abs (mr * D - N) <= D.
Proof.
  intros N D [m r s] HD (Hm & rho & HN & Hrho & Hr & Hs).
  cbn [shr_m shr_r shr_s] in *.
  destruct r, s; cbn [loc_of_shr_record round_nearest_even shr_m];
    try destruct (Z.even m);
    intuition (try discriminate; lia).
Qed.

(** ** The rounding of [binary_round_aux] *)

(** A mantissa of 64 digits is not shifted. *)
Lemma shr_fexp_normal : forall m e l,
  Zdigits2 m = 64 -> -16445 <= e ->
  shr_fexp LongDouble.prec LongDouble.emax m e l = (shr_record_of_loc m l, e).
Proof.
  intros m e l Hd He.
  unfold shr_fexp, fexp, emin, LongDouble.prec, LongDouble.emax. rewrite Hd.
  replace (Z.max (64 + e - 64) (3 - 16384 - 64) - e) with 0 by lia.
  reflexivity.
Qed.

(** A longer mantissa is shifted down to 64 digits. *)
Lemma shr_fexp_shift : forall mx ex lx N D,
  located N D (shr_record_of_loc (Zpos mx) lx) ->
  64 <= Zpos (digits2_pos mx) ->
  -16445 <= ex + Zpos (digits2_pos mx) - 64 ->
  exists mrs,
    shr_fexp LongDouble.prec LongDouble.emax (Zpos mx) ex lx
      = (mrs, ex + Zpos (digits2_pos mx) - 64) /\
    located N (D * 2 ^ (Zpos (digits2_pos mx) - 64)) mrs /\
    shr_m mrs = Zpos mx / 2 ^ (Zpos (digits2_pos mx) - 64).
Proof.
  intros mx ex lx N D Hloc Hd He.
  unfold shr_fexp, fexp, emin, LongDouble.prec, LongDouble.emax.
  cbn [Zdigits2]. set (d := Zpos (digits2_pos mx)) in *.
  replace (Z.max (d + ex - 64) (3 - 16384 - 64) - ex) with (d - 64) by lia.
  assert (Hm : shr_m (shr_record_of_loc (Zpos mx) lx) = Zpos mx)
    by (destruct lx as [|[]]; reflexivity).
  destruct (d - 64) as [|p|p] eqn:E; try lia; cbn [shr].
  - exists (shr_record_of_loc (Zpos mx) lx).
    rewrite Z.mul_1_r, Z.div_1_r.
    split; [f_equal; lia | split; assumption].
  - exists (SpecFloat.iter_pos shr_1 p (shr_record_of_loc (Zpos mx) lx)).
    destruct (shr_located _ _ _ p Hloc) as [H1 H2].
    rewrite Hm in H2.
    split; [f_equal; lia | split; assumption].
Qed.

(** [binary_round_aux] on a mantissa of 64 digits or more, in the range
    of the normal numbers: the result is finite, its mantissa has 64
    digits, and it is within half a unit in the last place of the exact
    value [N / D * 2 ^ ex]. *)
Lemma round_aux_spec : forall sx mx ex lx N D,
  0 < D ->
  located N D (shr_record_of_loc (Zpos mx) lx) ->
  64 <= Zpos (digits2_pos mx) ->
  -16445 <= ex + Zpos (digits2_pos mx) - 64 ->
  ex + Zpos (digits2_pos mx) - 63 <= 16320 ->
  exists m e,
    binary_round_aux LongDouble.prec LongDouble.emax sx (Zpos mx) ex lx
      = S754_finite sx m e /\
    Zpos (digits2_pos m) = 64 /\
    (e = ex + Zpos (digits2_pos mx) - 64 \/ e = ex + Zpos (digits2_pos mx) - 63) /\
    2 * Z.abs (Zpos m * 2 ^ (e - ex) * D - N)
      <= D * 2 ^ (Zpos (digits2_pos mx) - 64) /\
    2 ^ (Zpos (digits2_pos mx) - 1) * D <= N.
Proof.
  intros sx mx ex lx N D HD Hloc Hd Hlo Hhi.
  pose proof (digits_bounds mx) as [Blo Bhi].
  set (d := Zpos (digits2_pos mx)) in *.
  assert (HN : 2 ^ (d - 1) * D <= N).
  { destruct Hloc as (_ & rho & HN & Hrho & _).
    replace (shr_m (shr_record_of_loc (Zpos mx) lx)) with (Zpos mx) in HN
      by (destruct lx as [|[]]; reflexivity).
    nia. }
  destruct (shr_fexp_shift mx ex lx N D Hloc Hd Hlo) as (mrs & Hshr & Hmrs & Hm).
  fold d in Hshr, Hmrs, Hm.
  set (k := d - 64) in *.
  assert (Hk : 0 <= k) by lia.
  assert (Hpow : 2 ^ (d - 1) = 2 ^ 63 * 2 ^ k /\ 2 ^ d = 2 ^ 64 * 2 ^ k).
  { split; rewrite <- Z.pow_add_r by lia; f_equal; lia. }
  destruct Hpow as [Hp1 Hp2].
  assert (Hk2 : 0 < 2 ^ k) by (apply Z.pow_pos_nonneg; lia).
  assert (Hm' : 2 ^ 63 <= shr_m mrs < 2 ^ 64).
  { rewrite Hm. split.
    - apply Z.div_le_lower_bound; lia.
    - apply Z.div_lt_upper_bound; lia. }
  pose proof (round_nearest_even_located N (D * 2 ^ k) mrs ltac:(nia) Hmrs) as [Hr1 Hr2].
  cbv zeta in Hr1, Hr2.
  set (mr := round_nearest_even (shr_m mrs) (loc_of_shr_record mrs)) in *.
  replace (ex + d - 64) with (ex + k) in Hshr by lia.
  unfold binary_round_aux. rewrite Hshr. fold mr.
  destruct (Z.eq_dec mr (2 ^ 64)) as [E|E].
  - (* the mantissa carries into a 65th digit *)
    rewrite E.
    exists (2 ^ 63)%positive, (ex + k + 1).
    split; [|split; [reflexivity|split; [right; lia|split; [|exact HN]]]].
    + unfold shr_fexp, fexp, emin, LongDouble.prec, LongDouble.emax.
      replace (Zdigits2 (2 ^ 64)) with 65 by reflexivity.
      replace (Z.max (65 + (ex + k) - 64) (3 - 16384 - 64) - (ex + k)) with 1 by lia.
      cbn [shr shr_record_of_loc SpecFloat.iter_pos].
      change (shr_m (shr_1 {| shr_m := 2 ^ 64; shr_r := false; shr_s := false |}))
        with (Zpos (2 ^ 63)).
      cbv iota beta.
      replace (ex + k + 1 <=? 16384 - 64) with true
        by (symmetry; apply Z.leb_le; lia).
      reflexivity.
    + replace (ex + k + 1 - ex) with (k + 1) by lia.
      rewrite Z.pow_add_r by lia. change (2 ^ 1) with 2.
      replace (Zpos (2 ^ 63) * (2 ^ k * 2)) with (2 ^ 64 * 2 ^ k) by (change (Zpos (2^63)) with (2^63); lia).
      rewrite E in Hr2. replace (2 ^ 64 * 2 ^ k * D) with (2 ^ 64 * (D * 2 ^ k)) by ring.
      exact Hr2.
  - assert (Hmr : 2 ^ 63 <= mr < 2 ^ 64) by lia.
    destruct mr as [|m|m] eqn:Emr; try lia.
    exists m, (ex + k).
    split; [|split; [apply digits_unique; lia|split; [left; lia|split; [|exact HN]]]].
    + rewrite shr_fexp_normal; [|cbn [Zdigits2]; apply digits_unique; lia|lia].
      cbn [shr_record_of_loc shr_m].
      unfold LongDouble.prec, LongDouble.emax.
      replace (ex + k <=? 16384 - 64) with true
        by (symmetry; apply Z.leb_le; lia).
      reflexivity.
    + replace (ex + k - ex) with k by lia.
      replace (Zpos m * 2 ^ k * D) with (Zpos m * (D * 2 ^ k)) by ring.
      exact Hr2.
Qed.

(** ** Integers in [long double] *)

(** Shifts to the left. *)
Lemma iter_xO : forall m d, Zpos (Pos.iter xO m d) = Zpos m * 2 ^ Zpos d.
Proof.
  intros m d. revert m. induction d as [|d IH] using Pos.peano_ind; intros m.
  - cbn [Pos.iter]. rewrite Pos2Z.inj_xO. change (2 ^ 1) with 2. lia.
  - rewrite Pos.iter_succ, Pos2Z.inj_xO, IH, Pos2Z.inj_succ, Z.pow_succ_r by lia.
    ring.
Qed.

Lemma pow_scale_bounds : forall x d j,
  1 <= d -> 0 <= j -> 2 ^ (d - 1) <= x < 2 ^ d ->
  2 ^ (d + j - 1) <= x * 2 ^ j < 2 ^ (d + j).
Proof.
  intros x d j Hd Hj [Hlo Hhi].
  assert (0 < 2 ^ j) by (apply Z.pow_pos_nonneg; lia).
  replace (d + j - 1) with (d - 1 + j) by lia.
  rewrite !Z.pow_add_r by lia. nia.
Qed.

Lemma shl_align_le : forall m e e',
  e' <= e -> shl_align m e e' = (Z.to_pos (Zpos m * 2 ^ (e - e')), e').
Proof.
  intros m e e' H. unfold shl_align.
  destruct (e' - e) as [|p|p] eqn:E; try lia.
  - replace (e - e') with 0 by lia. rewrite Z.mul_1_r. cbn. f_equal. lia.
  - replace (e - e') with (Zpos p) by lia. rewrite <- iter_xO. reflexivity.
Qed.

(** An exact mantissa of 64 digits is kept as it is. *)
Lemma round_aux_normal : forall s m e,
  Zpos (digits2_pos m) = 64 -> -16445 <= e <= 16320 ->
  binary_round_aux LongDouble.prec LongDouble.emax s (Zpos m) e loc_Exact
  = S754_finite s m e.
Proof.
  intros s m e Hd He. unfold binary_round_aux.
  rewrite shr_fexp_normal by (cbn [Zdigits2]; lia).
  cbn [shr_record_of_loc shr_m loc_of_shr_record round_nearest_even].
  rewrite shr_fexp_normal by (cbn [Zdigits2]; lia).
  cbn [shr_record_of_loc shr_m].
  unfold LongDouble.prec, LongDouble.emax.
  replace (e <=? 16384 - 64) with true by (symmetry; apply Z.leb_le; lia).
  reflexivity.
Qed.

Lemma located_exact : forall m, 0 <= m ->
  located m 1 (shr_record_of_loc m loc_Exact).
Proof.
  intros m Hm. split; [exact Hm|]. exists 0. cbn.
  repeat split; try lia; intros; try lia; discriminate.
Qed.

(** Rounding [M * 2 ^ e], when it is an integer below [2 ^ 64], gives
    the representation of that integer. *)
Lemma binary_round_exact : forall M e n,
  -1000 <= e <= 0 -> Zpos M = Zpos n * 2 ^ (- e) -> Zpos n < 2 ^ 64 ->
  binary_round LongDouble.prec LongDouble.emax false M e = norm (Zpos n).
Proof.
  intros M e n He HM Hn.
  pose proof (digits_bounds n) as [Blo Bhi].
  set (dn := Zpos (digits2_pos n)) in *.
  assert (Hdn : 1 <= dn <= 64).
  { split; [subst dn; lia|].
    destruct (Z.le_gt_cases dn 64) as [|Hgt]; [assumption|].
    assert (2 ^ 64 <= 2 ^ (dn - 1)) by (apply Z.pow_le_mono_r; lia). lia. }
  assert (HdM : Zpos (digits2_pos M) = dn - e).
  { apply digits_unique. rewrite HM.
    pose proof (pow_scale_bounds (Zpos n) dn (- e)) as Hb.
    replace (dn + - e) with (dn - e) in Hb by lia.
    apply Hb; lia. }
  assert (Hnm : Zpos (Z.to_pos (Zpos n * 2 ^ (64 - dn))) = Zpos n * 2 ^ (64 - dn)).
  { apply Z2Pos.id. apply Z.mul_pos_pos; [lia|apply Z.pow_pos_nonneg; lia]. }
  unfold norm. fold dn.
  unfold binary_round.
  replace (fexp LongDouble.prec LongDouble.emax (Zpos (digits2_pos M) + e))
    with (dn - 64)
    by (unfold fexp, emin, LongDouble.prec, LongDouble.emax; lia).
  destruct (Z.le_gt_cases (dn - 64) e) as [Hle|Hgt].
  - (* the mantissa is extended to 64 digits *)
    rewrite shl_align_le by assumption.
    assert (Hmz : Zpos (Z.to_pos (Zpos M * 2 ^ (e - (dn - 64))))
                  = Zpos n * 2 ^ (64 - dn)).
    { rewrite Z2Pos.id by (apply Z.mul_pos_pos; [lia|apply Z.pow_pos_nonneg; lia]).
      rewrite HM, <- Z.mul_assoc, <- Z.pow_add_r by lia. do 2 f_equal. lia. }
    rewrite round_aux_normal.
    + f_equal. apply Pos2Z.inj. now rewrite Hmz, Hnm.
    + apply digits_unique. rewrite Hmz.
      pose proof (pow_scale_bounds (Zpos n) dn (64 - dn)) as Hb.
      replace (dn + (64 - dn)) with 64 in Hb by lia.
      apply Hb; lia.
    + lia.
  - (* the low digits, all zero, are shifted out *)
    unfold shl_align.
    destruct (dn - 64 - e) as [|p|p] eqn:E; try lia.
    destruct (round_aux_spec false M e loc_Exact (Zpos M) 1) as
      (m & e' & Hr & Hdm & He' & Herr & _); try lia.
    { apply located_exact. lia. }
    rewrite Hr. rewrite HdM in He', Herr.
    set (k := dn - e - 64) in *.
    assert (Hk : 0 < k <= - e) by lia.
    assert (Hsplit : 2 ^ (- e) = 2 ^ (- e - k) * 2 ^ k)
      by (rewrite <- Z.pow_add_r by lia; f_equal; lia).
    assert (Hk2 : 0 < 2 ^ k) by (apply Z.pow_pos_nonneg; lia).
    pose proof (digits_bounds m) as [Mlo Mhi]. rewrite Hdm in Mlo, Mhi.
    assert (Hn64 : Zpos n * 2 ^ (- e - k) < 2 ^ 64).
    { replace (- e - k) with (64 - dn) by lia.
      pose proof (pow_scale_bounds (Zpos n) dn (64 - dn)) as Hb.
      replace (dn + (64 - dn)) with 64 in Hb by lia.
      apply Hb; lia. }
    rewrite Z.mul_1_r, Z.mul_1_l in Herr.
    assert (Hval : Zpos m * 2 ^ (e' - e) = Zpos M /\ e' = e + k).
    { destruct He' as [He'|He'].
      - replace (e' - e) with k in * by lia. split; [|lia].
        rewrite HM, Hsplit in *.
        set (A := Zpos n * 2 ^ (- e - k)) in *.
        replace (Zpos n * (2 ^ (- e - k) * 2 ^ k)) with (A * 2 ^ k) in * by (subst A; ring).
        assert (Zpos m = A) by nia. nia.
      - exfalso. replace (e' - e) with (k + 1) in * by lia.
        rewrite Z.pow_add_r in Herr by lia. change (2 ^ 1) with 2 in Herr.
        rewrite HM, Hsplit in Herr.
        set (A := Zpos n * 2 ^ (- e - k)) in *.
        replace (Zpos n * (2 ^ (- e - k) * 2 ^ k)) with (A * 2 ^ k) in * by (subst A; ring).
        change (2 ^ (64 - 1)) with (2 ^ 63) in Mlo.
        assert (2 ^ 64 = 2 * 2 ^ 63) by reflexivity.
        nia. }
    destruct Hval as [Hval ->].
    f_equal; [|lia].
    apply Pos2Z.inj.
    replace (e + k - e) with k in Hval by lia.
    rewrite Hnm.
    replace (64 - dn) with (- e - k) by lia.
    rewrite HM, Hsplit in Hval. nia.
Qed.

(** The conversion of an integer below [2 ^ 64] is exact. *)
Lemma of_Z_norm : forall n, 0 <= n < 2 ^ 64 -> LongDouble.of_Z n = norm n.
Proof.
  intros [|n|n] Hn; try lia; [reflexivity|].
  unfold LongDouble.of_Z, binary_normalize.
  apply binary_round_exact; [lia| |lia].
  cbn. lia.
Qed.

(** The representation of a positive integer. *)
Lemma norm_pos : forall n, 0 < n < 2 ^ 64 ->
  exists m e,
    norm n = S754_finite false m e /\
    Zpos (digits2_pos m) = 64 /\ -63 <= e <= 0 /\
    Zpos m = n * 2 ^ (- e) /\ e = Zdigits2 n - 64.
Proof.
  intros [|n|n] Hn; try lia.
  pose proof (digits_bounds n) as [Blo Bhi].
  set (dn := Zpos (digits2_pos n)) in *.
  assert (Hdn : 1 <= dn <= 64).
  { split; [subst dn; lia|].
    destruct (Z.le_gt_cases dn 64) as [|Hgt]; [assumption|].
    assert (2 ^ 64 <= 2 ^ (dn - 1)) by (apply Z.pow_le_mono_r; lia). lia. }
  assert (Hm : Zpos (Z.to_pos (Zpos n * 2 ^ (64 - dn))) = Zpos n * 2 ^ (64 - dn)).
  { apply Z2Pos.id. apply Z.mul_pos_pos; [lia|apply Z.pow_pos_nonneg; lia]. }
  exists (Z.to_pos (Zpos n * 2 ^ (64 - dn))), (dn - 64).
  split; [reflexivity|]. split; [|split; [lia|split; [|reflexivity]]].
  - apply digits_unique. rewrite Hm.
    pose proof (pow_scale_bounds (Zpos n) dn (64 - dn)) as Hb.
    replace (dn + (64 - dn)) with 64 in Hb by lia.
    apply Hb; lia.
  - rewrite Hm. do 2 f_equal. lia.
Qed.

(** The mantissa of an integer, aligned to a lower exponent. *)
Lemma aligned : forall n m e ez,
  Zpos m = n * 2 ^ (- e) -> ez <= e <= 0 ->
  Zpos (fst (shl_align m e ez)) = n * 2 ^ (- ez).
Proof.
  intros n m e ez Hm He. rewrite shl_align_le by lia. cbn [fst].
  rewrite Z2Pos.id by (apply Z.mul_pos_pos; [lia|apply Z.pow_pos_nonneg; lia]).
  rewrite Hm, <- Z.mul_assoc, <- Z.pow_add_r by lia. do 2 f_equal. lia.
Qed.

Lemma digits_mono : forall a b,
  Zpos (digits2_pos a) < Zpos (digits2_pos b) -> Zpos a < Zpos b.
Proof.
  intros a b H.
  pose proof (digits_bounds a) as [_ Ha]. pose proof (digits_bounds b) as [Hb _].
  assert (2 ^ Zpos (digits2_pos a) <= 2 ^ (Zpos (digits2_pos b) - 1))
    by (apply Z.pow_le_mono_r; lia).
  lia.
Qed.

(** Comparison, subtraction and addition of integers are exact as long
    as the result is below [2 ^ 64]. *)
Lemma gt_norm : forall a b,
  0 <= a < 2 ^ 64 -> 0 <= b < 2 ^ 64 ->
  LongDouble.gt (norm a) (norm b) = (b <? a).
Proof.
  intros a b Ha Hb.
  destruct (Z.eq_dec a 0) as [->|Ha0]; destruct (Z.eq_dec b 0) as [->|Hb0].
  - reflexivity.
  - destruct (norm_pos b) as (mb & eb & -> & _); [lia|].
    cbn. symmetry. apply Z.ltb_ge. lia.
  - destruct (norm_pos a) as (ma & ea & -> & _); [lia|].
    cbn. symmetry. apply Z.ltb_lt. lia.
  - destruct (norm_pos a) as (ma & ea & -> & Hda & Hea & Hma & Ea); [lia|].
    destruct (norm_pos b) as (mb & eb & -> & Hdb & Heb & Hmb & Eb); [lia|].
    unfold LongDouble.gt, SFltb, SFcompare.
    destruct a as [|a|a], b as [|b|b]; try lia. cbn [Zdigits2] in Ea, Eb.
    destruct (Z.compare_spec eb ea) as [E|E|E].
    + rewrite E in Hmb. rewrite Pos.compare_cont_spec. cbn [Pos.switch_Eq].
      change ((mb ?= ma)%positive) with (Zpos mb ?= Zpos ma).
      assert (0 < 2 ^ (- ea)) by (apply Z.pow_pos_nonneg; lia).
      destruct (Z.compare_spec (Zpos mb) (Zpos ma)); symmetry;
        [apply Z.ltb_ge | apply Z.ltb_lt | apply Z.ltb_ge]; nia.
    + symmetry. apply Z.ltb_lt. apply digits_mono. lia.
    + symmetry. apply Z.ltb_ge. apply Z.lt_le_incl, digits_mono. lia.
Qed.

Lemma sub_norm : forall a b,
  0 <= b <= a -> a < 2 ^ 64 ->
  LongDouble.sub (norm a) (norm b) = norm (a - b).
Proof.
  intros a b Hb Ha.
  destruct (Z.eq_dec b 0) as [->|Hb0].
  - rewrite Z.sub_0_r. destruct (Z.eq_dec a 0) as [->|Ha0]; [reflexivity|].
    destruct (norm_pos a) as (ma & ea & -> & _); [lia|]. reflexivity.
  - destruct (norm_pos a) as (ma & ea & -> & Hda & Hea & Hma & _); [lia|].
    destruct (norm_pos b) as (mb & eb & -> & Hdb & Heb & Hmb & _); [lia|].
    unfold LongDouble.sub, SFsub. cbv zeta. cbn [cond_Zopp].
    rewrite (aligned a ma ea), (aligned b mb eb) by lia.
    set (ez := Z.min ea eb).
    assert (0 < 2 ^ (- ez)) by (apply Z.pow_pos_nonneg; lia).
    replace (a * 2 ^ (- ez) - b * 2 ^ (- ez)) with ((a - b) * 2 ^ (- ez)) by ring.
    destruct (Z.eq_dec a b) as [->|Hne].
    + rewrite Z.sub_diag. reflexivity.
    + destruct (a - b) as [|n|n] eqn:En; try lia.
      destruct (Zpos n * 2 ^ (- ez)) as [|M|M] eqn:EM; try nia.
      unfold binary_normalize.
      apply binary_round_exact; lia.
Qed.

Lemma add_norm : forall a b,
  0 <= a -> 0 <= b -> a + b < 2 ^ 64 ->
  LongDouble.add (norm a) (norm b) = norm (a + b).
Proof.
  intros a b Ha Hb Hab.
  destruct (Z.eq_dec a 0) as [->|Ha0]; destruct (Z.eq_dec b 0) as [->|Hb0].
  - reflexivity.
  - destruct (norm_pos b) as (mb & eb & E & _); [lia|].
    cbn [Z.add]. rewrite E. reflexivity.
  - rewrite Z.add_0_r.
    destruct (norm_pos a) as (ma & ea & -> & _); [lia|]. reflexivity.
  - destruct (norm_pos a) as (ma & ea & -> & Hda & Hea & Hma & _); [lia|].
    destruct (norm_pos b) as (mb & eb & -> & Hdb & Heb & Hmb & _); [lia|].
    unfold LongDouble.add, SFadd. cbv zeta. cbn [cond_Zopp].
    rewrite (aligned a ma ea), (aligned b mb eb) by lia.
    set (ez := Z.min ea eb).
    assert (0 < 2 ^ (- ez)) by (apply Z.pow_pos_nonneg; lia).
    replace (a * 2 ^ (- ez) + b * 2 ^ (- ez)) with ((a + b) * 2 ^ (- ez)) by ring.
    destruct (a + b) as [|n|n] eqn:En; try lia.
    destruct (Zpos n * 2 ^ (- ez)) as [|M|M] eqn:EM; try nia.
    unfold binary_normalize.
    apply binary_round_exact; lia.
Qed.

(** ** Values *)

(** Powers of two in [Q]. *)
Lemma Qpow2_pos : forall e, (0 < 2 ^ e)%Q.
Proof. intros e. apply Qpower_0_lt. reflexivity. Qed.

Lemma Qpow2_add : forall a b, (2 ^ (a + b) == 2 ^ a * 2 ^ b)%Q.
Proof. intros a b. apply Qpower_plus. discriminate. Qed.

Lemma Qpow2_Z : forall k, 0 <= k -> (inject_Z (2 ^ k) == 2 ^ k)%Q.
Proof. intros k Hk. now rewrite Zpower_Qpower. Qed.

Lemma scaled_mantissa : forall m e ex, ex <= e ->
  (inject_Z (Zpos m) * 2 ^ e == inject_Z (Zpos m * 2 ^ (e - ex)) * 2 ^ ex)%Q.
Proof.
  intros m e ex H.
  replace e with ((e - ex) + ex) at 1 by lia.
  rewrite Qpow2_add, inject_Z_mult, Qpow2_Z by lia. ring.
Qed.

(** Half a unit in the last place of a mantissa of 64 digits is a
    relative error of [2 ^ -64] at most. *)
Lemma rel_error_Q : forall N C D : Z, forall P : Q,
  0 < D -> (0 < P)%Q ->
  2 * Z.abs (C * D - N) * 2 ^ 63 <= N ->
  ((1 - u64) * (inject_Z N / inject_Z D * P) <= inject_Z C * P
   <= (1 + u64) * (inject_Z N / inject_Z D * P))%Q.
Proof.
  intros N C D P HD HP H.
  assert (Hd : (0 < inject_Z D)%Q) by (change 0%Q with (inject_Z 0); now rewrite <- Zlt_Qlt).
  set (x := (inject_Z N / inject_Z D)%Q).
  assert (Hx : (inject_Z N == x * inject_Z D)%Q) by (unfold x; field; lra).
  assert (H1 : (2 ^ 64 - 1) * N <= 2 ^ 64 * (C * D)) by lia.
  assert (H2 : 2 ^ 64 * (C * D) <= (2 ^ 64 + 1) * N) by lia.
  rewrite Zle_Qle in H1, H2.
  rewrite !inject_Z_mult, Hx in H1, H2.
  set (c := inject_Z C) in *. set (d := inject_Z D) in *.
  change (inject_Z (2 ^ 64 - 1)) with (18446744073709551615 # 1)%Q in H1.
  change (inject_Z (2 ^ 64 + 1)) with (18446744073709551617 # 1)%Q in H2.
  change (inject_Z (2 ^ 64)) with (18446744073709551616 # 1)%Q in H1, H2.
  assert (G1 : ((18446744073709551615 # 1) * x <= (18446744073709551616 # 1) * c)%Q).
  { apply (Qmult_le_r _ _ d Hd). lra. }
  assert (G2 : ((18446744073709551616 # 1) * c <= (18446744073709551617 # 1) * x)%Q).
  { apply (Qmult_le_r _ _ d Hd). lra. }
  unfold u64. change (Zpos (2 ^ 64)) with 18446744073709551616%Z.
  split; apply (Qmult_le_r _ _ P HP) in G1, G2.
  - apply (Qmult_le_l _ _ (18446744073709551616 # 1)); [reflexivity|].
    setoid_replace ((18446744073709551616 # 1) * ((1 - (1 # 18446744073709551616)) * (x * P)))%Q
      with ((18446744073709551615 # 1) * x * P)%Q by ring.
    lra.
  - apply (Qmult_le_l _ _ (18446744073709551616 # 1)); [reflexivity|].
    setoid_replace ((18446744073709551616 # 1) * ((1 + (1 # 18446744073709551616)) * (x * P)))%Q
      with ((18446744073709551617 # 1) * x * P)%Q by ring.
    lra.
Qed.

(** [binary_round_aux], as a relative error on the value. *)
Lemma round_aux_val : forall sx mx ex lx N D,
  0 < D ->
  located N D (shr_record_of_loc (Zpos mx) lx) ->
  64 <= Zpos (digits2_pos mx) ->
  -16445 <= ex + Zpos (digits2_pos mx) - 64 ->
  ex + Zpos (digits2_pos mx) - 63 <= 16320 ->
  exists m e,
    binary_round_aux LongDouble.prec LongDouble.emax sx (Zpos mx) ex lx
      = S754_finite sx m e /\
    Zpos (digits2_pos m) = 64 /\
    (e = ex + Zpos (digits2_pos mx) - 64 \/ e = ex + Zpos (digits2_pos mx) - 63) /\
    ((1 - u64) * (inject_Z N / inject_Z D * 2 ^ ex)
     <= inject_Z (Zpos m) * 2 ^ e
     <= (1 + u64) * (inject_Z N / inject_Z D * 2 ^ ex))%Q.
Proof.
  intros sx mx ex lx N D HD Hloc Hd Hlo Hhi.
  destruct (round_aux_spec sx mx ex lx N D HD Hloc Hd Hlo Hhi)
    as (m & e & Hr & Hdm & He & Herr & HN).
  exists m, e. repeat (split; [assumption|]).
  rewrite (scaled_mantissa m e ex) by lia.
  apply rel_error_Q; [assumption | apply Qpow2_pos |].
  set (d := Zpos (digits2_pos mx)) in *.
  replace (2 ^ (d - 1)) with (2 ^ (d - 64) * 2 ^ 63) in HN
    by (rewrite <- Z.pow_add_r by lia; f_equal; lia).
  nia.
Qed.

(** The position that [SFdiv_core_binary] computes from the remainder
    of the division. *)
Lemma new_location_located : forall D q r,
  0 < D -> 0 <= q -> 0 <= r < D ->
  located (q * D + r) D (shr_record_of_loc q (new_location D r)).
Proof.
  intros D q r HD Hq Hr.
  assert (Hm : forall l, shr_m (shr_record_of_loc q l) = q)
    by (intros [|[]]; reflexivity).
  split; [now rewrite Hm|]. exists r. rewrite Hm.
  split; [reflexivity|]. split; [assumption|].
  unfold new_location, new_location_even, new_location_odd.
  destruct (Z.even D) eqn:Ev; destruct (Z.eqb_spec r 0) as [E0|E0].
  - cbn [shr_r shr_s shr_record_of_loc]. split; split; intros; try discriminate; exfalso; lia.
  - destruct (Z.compare_spec (2 * r) D); cbn [shr_r shr_s shr_record_of_loc];
      split; split; intros; try discriminate; try reflexivity;
      try lia; exfalso; lia.
  - cbn [shr_r shr_s shr_record_of_loc]. split; split; intros; try discriminate; exfalso; lia.
  - assert (Hodd : Z.odd D = true) by (rewrite <- Z.negb_even, Ev; reflexivity).
    apply Z.odd_spec in Hodd as [j Hj].
    destruct (Z.compare_spec (2 * r + 1) D); cbn [shr_r shr_s shr_record_of_loc];
      split; split; intros; try discriminate; try reflexivity;
      try lia; exfalso; lia.
Qed.

(** The value of the representation of an integer. *)
Lemma norm_val : forall n m e,
  Zpos m = n * 2 ^ (- e) -> e <= 0 ->
  (inject_Z (Zpos m) * 2 ^ e == inject_Z n)%Q.
Proof.
  intros n m e Hm He.
  rewrite Hm, inject_Z_mult, Qpow2_Z by lia.
  rewrite <- Qmult_assoc, <- Qpow2_add.
  replace (- e + e) with 0 by lia. cbn. ring.
Qed.

(** The quotient of two integers: one rounding. *)
Lemma div_norm : forall a b,
  0 < a < 2 ^ 64 -> 0 < b < 2 ^ 64 ->
  exists m e,
    LongDouble.div (norm a) (norm b) = S754_finite false m e /\
    Zpos (digits2_pos m) = 64 /\ -130 <= e <= 2 /\
    ((1 - u64) * (inject_Z a / inject_Z b)
     <= inject_Z (Zpos m) * 2 ^ e
     <= (1 + u64) * (inject_Z a / inject_Z b))%Q.
Proof.
  intros a b Ha Hb.
  destruct (norm_pos a Ha) as (ma & ea & -> & Hda & Hea & Hma & _).
  destruct (norm_pos b Hb) as (mb & eb & -> & Hdb & Heb & Hmb & _).
  pose proof (digits_bounds ma) as [Alo Ahi]. rewrite Hda in Alo, Ahi.
  pose proof (digits_bounds mb) as [Blo Bhi]. rewrite Hdb in Blo, Bhi.
  change (2 ^ (64 - 1)) with (2 ^ 63) in Alo, Blo.
  unfold LongDouble.div, SFdiv, SFdiv_core_binary.
  cbn [Zdigits2 xorb]. rewrite Hda, Hdb. cbv zeta.
  replace (Z.min (fexp LongDouble.prec LongDouble.emax (64 + ea - (64 + eb))) (ea - eb))
    with (ea - eb - 64)
    by (unfold fexp, emin, LongDouble.prec, LongDouble.emax; lia).
  replace (ea - eb - (ea - eb - 64)) with 64 by lia.
  cbv iota. rewrite Z.shiftl_mul_pow2 by lia.
  pose proof (Z.div_eucl_eq (Zpos ma * 2 ^ 64) (Zpos mb) ltac:(lia)) as Hqr.
  pose proof (Z.mod_pos_bound (Zpos ma * 2 ^ 64) (Zpos mb) ltac:(lia)) as Hrb.
  unfold Z.modulo in Hrb.
  destruct (Z.div_eucl (Zpos ma * 2 ^ 64) (Zpos mb)) as [q r].
  assert (Hq : 2 ^ 63 <= q < 2 ^ 65).
  { assert (2 ^ 64 = 2 * 2 ^ 63) by reflexivity.
    assert (2 ^ 65 = 4 * 2 ^ 63) by reflexivity. nia. }
  destruct q as [|qp|qp]; try lia.
  pose proof (digits_bounds qp) as [Qlo Qhi].
  assert (Hdq : 64 <= Zpos (digits2_pos qp) <= 65).
  { split.
    - destruct (Z.le_gt_cases 64 (Zpos (digits2_pos qp))) as [|Hlt]; [assumption|].
      assert (2 ^ Zpos (digits2_pos qp) <= 2 ^ 63) by (apply Z.pow_le_mono_r; lia).
      lia.
    - destruct (Z.le_gt_cases (Zpos (digits2_pos qp)) 65) as [|Hgt]; [assumption|].
      assert (2 ^ 65 <= 2 ^ (Zpos (digits2_pos qp) - 1)) by (apply Z.pow_le_mono_r; lia).
      lia. }
  destruct (round_aux_val false qp (ea - eb - 64) (new_location (Zpos mb) r)
              (Zpos ma * 2 ^ 64) (Zpos mb))
    as (m & e & Hr & Hdm & He & Hv); try lia.
  { replace (Zpos ma * 2 ^ 64) with (Zpos qp * Zpos mb + r) by lia.
    apply new_location_located; lia. }
  exists m, e. split; [exact Hr|]. split; [exact Hdm|]. split; [lia|].
  assert (HX : (inject_Z (Zpos ma * 2 ^ 64) / inject_Z (Zpos mb) * 2 ^ (ea - eb - 64)
                == inject_Z a / inject_Z b)%Q).
  { rewrite <- (norm_val a ma ea), <- (norm_val b mb eb) by lia.
    replace (ea - eb - 64) with (ea + (- eb + -64)) by lia.
    rewrite !Qpow2_add, Qpower_opp, inject_Z_mult.
    pose proof (Qpow2_pos ea). pose proof (Qpow2_pos eb).
    assert (0 < inject_Z (Zpos mb))%Q by reflexivity.
    change (inject_Z (2 ^ 64)) with (18446744073709551616 # 1)%Q.
    change (2 ^ (-64))%Q with (1 # 18446744073709551616)%Q.
    field. split; lra. }
  rewrite HX in Hv. exact Hv.
Qed.

(** [long double] 100. *)
Lemma of_Z_100 : LongDouble.of_Z 100 = S754_finite false 14411518807585587200 (-57).
Proof. reflexivity. Qed.

(** The product with 100: one rounding. *)
Lemma mul_100 : forall m e,
  Zpos (digits2_pos m) = 64 -> -1000 <= e <= 1000 ->
  exists m' e',
    LongDouble.mul (S754_finite false m e) (LongDouble.of_Z 100)
      = S754_finite false m' e' /\
    ((1 - u64) * (100 * (inject_Z (Zpos m) * 2 ^ e))
     <= inject_Z (Zpos m') * 2 ^ e'
     <= (1 + u64) * (100 * (inject_Z (Zpos m) * 2 ^ e)))%Q.
Proof.
  intros m e Hd He. rewrite of_Z_100.
  pose proof (digits_bounds m) as [Mlo Mhi]. rewrite Hd in Mlo, Mhi.
  change (2 ^ (64 - 1)) with (2 ^ 63) in Mlo.
  unfold LongDouble.mul, SFmul. cbn [xorb].
  set (c := 14411518807585587200%positive).
  assert (Hc : 2 ^ 63 <= Zpos c < 2 ^ 64) by (subst c; split; reflexivity || (cbv; discriminate)).
  pose proof (digits_bounds (m * c)) as [Plo Phi].
  assert (Hdp : 127 <= Zpos (digits2_pos (m * c)) <= 128).
  { rewrite Pos2Z.inj_mul in Plo, Phi.
    assert (2 ^ 126 = 2 ^ 63 * 2 ^ 63) by reflexivity.
    assert (2 ^ 128 = 2 ^ 64 * 2 ^ 64) by reflexivity.
    split.
    - destruct (Z.le_gt_cases 127 (Zpos (digits2_pos (m * c)))) as [|Hlt]; [assumption|].
      assert (2 ^ Zpos (digits2_pos (m * c)) <= 2 ^ 126) by (apply Z.pow_le_mono_r; lia).
      nia.
    - destruct (Z.le_gt_cases (Zpos (digits2_pos (m * c))) 128) as [|Hgt]; [assumption|].
      assert (2 ^ 128 <= 2 ^ (Zpos (digits2_pos (m * c)) - 1)) by (apply Z.pow_le_mono_r; lia).
      nia. }
  destruct (round_aux_val false (m * c) (e + -57) loc_Exact (Zpos (m * c)) 1)
    as (m' & e' & Hr & Hdm & He' & Hv); try lia.
  { apply located_exact. lia. }
  exists m', e'. split; [exact Hr|].
  assert (HX : (inject_Z (Zpos (m * c)) / inject_Z 1 * 2 ^ (e + -57)
                == 100 * (inject_Z (Zpos m) * 2 ^ e))%Q).
  { rewrite Pos2Z.inj_mul, inject_Z_mult, Qpow2_add.
    change (2 ^ (-57))%Q with (1 # 144115188075855872)%Q.
    subst c. change (inject_Z 14411518807585587200) with (14411518807585587200 # 1)%Q.
    change (inject_Z 1) with 1%Q.
    field. }
  rewrite HX in Hv. exact Hv.
Qed.

(** ** The percentages of [get_cpu_util] *)

(** The absolute delta of two integer counters is exact. *)
Lemma abs_diff_of_Z : forall n o,
  0 <= n < 2 ^ 64 -> 0 <= o < 2 ^ 64 ->
  abs_diff (LongDouble.of_Z n) (LongDouble.of_Z o) = LongDouble.of_Z (Z.abs (n - o)).
Proof.
  intros n o Hn Ho.
  rewrite !of_Z_norm by lia. unfold abs_diff. rewrite gt_norm by lia.
  destruct (Z.ltb_spec o n).
  - rewrite sub_norm, Z.abs_eq by lia. reflexivity.
  - rewrite sub_norm by lia. f_equal. lia.
Qed.

Lemma add_of_Z : forall a b,
  0 <= a -> 0 <= b -> a + b < 2 ^ 64 ->
  LongDouble.add (LongDouble.of_Z a) (LongDouble.of_Z b) = LongDouble.of_Z (a + b).
Proof.
  intros a b Ha Hb Hab. rewrite !of_Z_norm by lia. now apply add_norm.
Qed.

(** The stored value for a delta [d] out of the sum [tot]: finite, and
    within two roundings of [100 * d / tot]. *)
Lemma percent_of_Z : forall d tot,
  0 <= d <= tot -> 0 < tot < 2 ^ 64 ->
  is_finite (percent (LongDouble.of_Z d) (LongDouble.of_Z tot)) = true /\
  ((1 - u64) * ((1 - u64) * (100 * (inject_Z d / inject_Z tot)))
   <= val (percent (LongDouble.of_Z d) (LongDouble.of_Z tot))
   <= (1 + u64) * ((1 + u64) * (100 * (inject_Z d / inject_Z tot))))%Q.
Proof.
  intros d tot Hd Ht. unfold percent.
  destruct (Z.eq_dec d 0) as [->|Hd0].
  - rewrite (of_Z_norm tot) by lia.
    destruct (norm_pos tot Ht) as (mt & et & -> & _).
    rewrite of_Z_100. cbn [LongDouble.of_Z binary_normalize].
    cbn. split; [reflexivity|].
    setoid_replace (inject_Z 0 / inject_Z tot)%Q with 0%Q
      by (unfold Qdiv; apply Qmult_0_l).
    unfold u64. lra.
  - rewrite (of_Z_norm d), (of_Z_norm tot) by lia.
    destruct (div_norm d tot) as (m & e & -> & Hdm & He & Hq); try lia.
    destruct (mul_100 m e Hdm) as (m' & e' & -> & Hp); [lia|].
    split; [reflexivity|].
    cbn [val cond_Zopp].
    set (x := (inject_Z d / inject_Z tot)%Q) in *.
    set (v := (inject_Z (Zpos m) * 2 ^ e)%Q) in *.
    set (p := (inject_Z (Zpos m') * 2 ^ e')%Q) in *.
    unfold u64 in *.
    change (2 ^ 64)%positive with 18446744073709551616%positive in *.
    lra.
Qed.

Lemma delta_range : forall old new k,
  0 < delta_sum old new < 2 ^ 64 ->
  0 <= delta old new k <= delta_sum old new.
Proof.
  intros old new k H. unfold delta_sum in *.
  pose proof (Z.abs_nonneg (counter new CPU_USER - counter old CPU_USER)).
  pose proof (Z.abs_nonneg (counter new CPU_NICE - counter old CPU_NICE)).
  pose proof (Z.abs_nonneg (counter new CPU_SYSTEM - counter old CPU_SYSTEM)).
  pose proof (Z.abs_nonneg (counter new CPU_IDLE - counter old CPU_IDLE)).
  pose proof (Z.abs_nonneg (counter new CPU_IOWAIT - counter old CPU_IOWAIT)).
  unfold delta in *. destruct k; lia.
Qed.

(** A cycle that reads two lines of five counters returns [G_OK] and
    stores, for each counter, its delta divided by the sum of the deltas,
    times 100, in [long double]. *)
Lemma get_cpu_util_stores : forall env gimli old new,
  cpu_fopen env = true ->
  cpu_fgets1 env = Some (stat_line old) ->
  cpu_fgets2 env = Some (stat_line new) ->
  cpu_fclose env = true ->
  (forall k, 0 <= counter old k < 2 ^ 64) ->
  (forall k, 0 <= counter new k < 2 ^ 64) ->
  0 < delta_sum old new < 2 ^ 64 ->
  fst (get_cpu_util env gimli) = G_OK /\
  forall k,
    cpu (snd (get_cpu_util env gimli)) k
    = percent (LongDouble.of_Z (delta old new k))
        (LongDouble.of_Z (delta_sum old new)).
Proof.
  intros env gimli old new Ho H1 H2 Hc Hold Hnew Hsum.
  unfold get_cpu_util. rewrite Ho, H1, H2, Hc.
  cbn [negb stat_line map sscanf_cpu Z.ltb Z.compare Pos.compare Pos.compare_cont].
  split; [reflexivity|].
  assert (Hd : forall k,
             abs_diff (LongDouble.of_Z (counter new k)) (LongDouble.of_Z (counter old k))
             = LongDouble.of_Z (delta old new k))
    by (intros k; apply abs_diff_of_Z; auto).
  pose proof (Hd CPU_USER) as Hu. pose proof (Hd CPU_NICE) as Hn.
  pose proof (Hd CPU_SYSTEM) as Hs. pose proof (Hd CPU_IDLE) as Hi.
  pose proof (Hd CPU_IOWAIT) as Hw. cbn [counter] in Hu, Hn, Hs, Hi, Hw.
  assert (Ht : cpu_tot (cpu_diff
                 {| Cpu.u := LongDouble.of_Z (user new); Cpu.n := LongDouble.of_Z (nice new);
                    Cpu.s := LongDouble.of_Z (system new); Cpu.i := LongDouble.of_Z (idle new);
                    Cpu.w := LongDouble.of_Z (iowait new) |}
                 {| Cpu.u := LongDouble.of_Z (user old); Cpu.n := LongDouble.of_Z (nice old);
                    Cpu.s := LongDouble.of_Z (system old); Cpu.i := LongDouble.of_Z (idle old);
                    Cpu.w := LongDouble.of_Z (iowait old) |})
             = LongDouble.of_Z (delta_sum old new)).
  { unfold cpu_tot, cpu_diff. cbn [Cpu.u Cpu.n Cpu.s Cpu.i Cpu.w].
    rewrite Hu, Hn, Hs, Hi, Hw.
    pose proof (delta_range old new CPU_USER Hsum).
    pose proof (delta_range old new CPU_NICE Hsum).
    pose proof (delta_range old new CPU_SYSTEM Hsum).
    pose proof (delta_range old new CPU_IDLE Hsum).
    pose proof (delta_range old new CPU_IOWAIT Hsum).
    unfold delta_sum in *.
    rewrite !add_of_Z by lia. reflexivity. }
  intros k. cbn [snd]. rewrite Ht.
  destruct k; cbn [set_cpu cpu]; unfold upd; cbn [cpu_idx_eqb];
    unfold cpu_diff; cbn [Cpu.u Cpu.n Cpu.s Cpu.i Cpu.w];
    [ rewrite Hu | rewrite Hn | rewrite Hs | rewrite Hi | rewrite Hw ];
    reflexivity.
Qed.

(** The five shares sum to 100, and each lies between 0 and 100. *)
Lemma share_sum : forall old new,
  0 < delta_sum old new ->
  (share old new CPU_USER + share old new CPU_NICE + share old new CPU_SYSTEM
   + share old new CPU_IDLE + share old new CPU_IOWAIT == 100)%Q.
Proof.
  intros old new H. unfold share.
  assert (Hs : (inject_Z (delta_sum old new)
                == inject_Z (delta old new CPU_USER) + inject_Z (delta old new CPU_NICE)
                   + inject_Z (delta old new CPU_SYSTEM) + inject_Z (delta old new CPU_IDLE)
                   + inject_Z (delta old new CPU_IOWAIT))%Q)
    by (unfold delta_sum; now rewrite !inject_Z_plus).
  assert (Hp : (0 < inject_Z (delta_sum old new))%Q)
    by (change 0%Q with (inject_Z 0); now rewrite <- Zlt_Qlt).
  rewrite Hs in Hp. rewrite !Hs. field. lra.
Qed.

Lemma share_range : forall old new k,
  0 < delta_sum old new < 2 ^ 64 ->
  (0 <= share old new k <= 100)%Q.
Proof.
  intros old new k H. pose proof (delta_range old new k H) as [Hlo Hhi].
  rewrite Zle_Qle in Hlo, Hhi.
  assert (Hp : (0 < inject_Z (delta_sum old new))%Q)
    by (change 0%Q with (inject_Z 0); rewrite <- Zlt_Qlt; lia).
  unfold share.
  set (t := inject_Z (delta_sum old new)) in *.
  set (d := inject_Z (delta old new k)) in *.
  change (inject_Z 0) with 0%Q in Hlo.
  assert (Hx : (d == d / t * t)%Q) by (field; lra).
  set (x := (d / t)%Q) in *.
  assert (0 <= x)%Q.
  { apply (Qmult_le_r _ _ t Hp). lra. }
  assert (x <= 1)%Q.
  { apply (Qmult_le_r _ _ t Hp). lra. }
  lra.
Qed.

Lemma percent_close : forall old new k,
  0 < delta_sum old new < 2 ^ 64 ->
  let p := percent (LongDouble.of_Z (delta old new k))
             (LongDouble.of_Z (delta_sum old new)) in
  is_finite p = true /\
  ((1 - u64) * ((1 - u64) * share old new k) <= val p
   <= (1 + u64) * ((1 + u64) * share old new k))%Q.
Proof.
  intros old new k H.
  pose proof (delta_range old new k H) as Hr.
  apply percent_of_Z; lia.
Qed.

(** C6.  For every cycle that reads two lines of five counters whose
    deltas have a sum that is not zero (counters and sum below [2 ^ 64]),
    [get_cpu_util] returns [G_OK]; each stored percentage is the delta
    of its counter divided by the sum of the five deltas, times 100,
    computed in [long double], a finite value within [2 ^ -56] of the
    exact quotient; and the five stored percentages sum to 100 within
    [2 ^ -56]. *)
Theorem get_cpu_util_percentages : forall env gimli old new,
  cpu_fopen env = true ->
  cpu_fgets1 env = Some (stat_line old) ->
  cpu_fgets2 env = Some (stat_line new) ->
  cpu_fclose env = true ->
  (forall k, 0 <= counter old k < 2 ^ 64) ->
  (forall k, 0 <= counter new k < 2 ^ 64) ->
  0 < delta_sum old new < 2 ^ 64 ->
  fst (get_cpu_util env gimli) = G_OK /\
  (forall k,
     cpu (snd (get_cpu_util env gimli)) k
     = percent (LongDouble.of_Z (delta old new k))
         (LongDouble.of_Z (delta_sum old new)) /\
     is_finite (cpu (snd (get_cpu_util env gimli)) k) = true /\
     (Qabs (val (cpu (snd (get_cpu_util env gimli)) k) - share old new k)
      <= 1 # (2 ^ 56))%Q) /\
  (Qabs (val (cpu (snd (get_cpu_util env gimli)) CPU_USER)
         + val (cpu (snd (get_cpu_util env gimli)) CPU_NICE)
         + val (cpu (snd (get_cpu_util env gimli)) CPU_SYSTEM)
         + val (cpu (snd (get_cpu_util env gimli)) CPU_IDLE)
         + val (cpu (snd (get_cpu_util env gimli)) CPU_IOWAIT)
         - 100)
   <= 1 # (2 ^ 56))%Q.
Proof.
  intros env gimli old new Ho H1 H2 Hc Hold Hnew Hsum.
  destruct (get_cpu_util_stores env gimli old new Ho H1 H2 Hc Hold Hnew Hsum)
    as [Hst Hcpu].
  split; [exact Hst|].
  assert (Hb : forall k,
             is_finite (cpu (snd (get_cpu_util env gimli)) k) = true /\
             ((1 - u64) * ((1 - u64) * share old new k)
              <= val (cpu (snd (get_cpu_util env gimli)) k)
              <= (1 + u64) * ((1 + u64) * share old new k))%Q).
  { intros k. rewrite Hcpu. now apply percent_close. }
  unfold u64 in Hb.
  change (2 ^ 64)%positive with 18446744073709551616%positive in Hb.
  change (2 ^ 56)%positive with 72057594037927936%positive.
  split.
  - intros k. split; [apply Hcpu|]. destruct (Hb k) as [Hf Hv].
    split; [exact Hf|].
    pose proof (share_range old new k Hsum) as Hx.
    apply Qabs_Qle_condition. lra.
  - pose proof (share_sum old new ltac:(lia)) as Hs.
    destruct (Hb CPU_USER) as [_ Hu]. destruct (Hb CPU_NICE) as [_ Hn].
    destruct (Hb CPU_SYSTEM) as [_ Hsy]. destruct (Hb CPU_IDLE) as [_ Hi].
    destruct (Hb CPU_IOWAIT) as [_ Hw].
    apply Qabs_Qle_condition. lra.
Qed.

Lemma get_cpu_util_percentages_witness :
  fst (get_cpu_util (cpu_cycle reading_old reading_new) gimli_zero) = G_OK /\
  (forall k,
     cpu (snd (get_cpu_util (cpu_cycle reading_old reading_new) gimli_zero)) k
     = percent (LongDouble.of_Z (delta reading_old reading_new k))
         (LongDouble.of_Z (delta_sum reading_old reading_new)) /\
     is_finite
       (cpu (snd (get_cpu_util (cpu_cycle reading_old reading_new) gimli_zero)) k)
     = true /\
     (Qabs
        (val (cpu (snd (get_cpu_util (cpu_cycle reading_old reading_new)
                          gimli_zero)) k)
         - share reading_old reading_new k)
      <= 1 # (2 ^ 56))%Q) /\
  (Qabs
     (val (cpu (snd (get_cpu_util (cpu_cycle reading_old reading_new)
                       gimli_zero)) CPU_USER)
      + val (cpu (snd (get_cpu_util (cpu_cycle reading_old reading_new)
                         gimli_zero)) CPU_NICE)
      + val (cpu (snd (get_cpu_util (cpu_cycle reading_old reading_new)
                         gimli_zero)) CPU_SYSTEM)
      + val (cpu (snd (get_cpu_util (cpu_cycle reading_old reading_new)
                         gimli_zero)) CPU_IDLE)
      + val (cpu (snd (get_cpu_util (cpu_cycle reading_old reading_new)
                         gimli_zero)) CPU_IOWAIT)
      - 100)
   <= 1 # (2 ^ 56))%Q.
Proof.
  apply (get_cpu_util_percentages (cpu_cycle reading_old reading_new) gimli_zero
           reading_old reading_new);
    try reflexivity;
    try (intros []; cbn; lia);
    cbn; lia.
Defined.

(** The reply to GET /cpu after that cycle. *)
Example handle_request_cpu_after_cycle :
  handle_request
    (snd (get_cpu_util (cpu_cycle reading_old reading_new) gimli_zero))
    "GET /cpu" OUTPUT_SIZE
  = "{" ++ q ++ "cpu" ++ q ++ ":{"
    ++ q ++ "us" ++ q ++ ":20.0," ++ q ++ "sy" ++ q ++ ":6.7,"
    ++ q ++ "id" ++ q ++ ":71.7," ++ q ++ "wa" ++ q ++ ":1.7,"
    ++ q ++ "ni" ++ q ++ ":0.0}}" ++ crlf.
Proof. vm_compute. reflexivity. Qed.

(** * Further properties of the code *)

(** ** The router, test by test *)

(** The tests of the router on a request that starts with [lit]. *)
Ltac route_on lit E :=
  apply prefix_app in E as [?rest ->];
  cbn [prefix append ascii_dec];
  cbn;
  repeat split; intros; try reflexivity; try discriminate;
  try (intuition discriminate).

(** X1.  Each test of [handle_request] compares the request with its
    literal less the last character: a route other than the error one is
    selected exactly when the request starts with that shortened
    literal, and the error route exactly when it starts with none. *)
Theorem route_by_shortened_literal : forall buf,
  (route buf = R_CPU <-> prefix "GET /cp" buf = true) /\
  (route buf = R_LOAD <-> prefix "GET /loa" buf = true) /\
  (route buf = R_UPTIME <-> prefix "GET /uptim" buf = true) /\
  (route buf = R_PROCS <-> prefix "GET /proc" buf = true) /\
  (route buf = R_CORES <-> prefix "GET /core" buf = true) /\
  (route buf = R_NET <-> prefix "GET /ne" buf = true) /\
  (route buf = R_ALL <-> prefix "GET / HTT" buf = true) /\
  (route buf = R_ERR <->
   prefix "GET /cp" buf = false /\ prefix "GET /loa" buf = false /\
   prefix "GET /uptim" buf = false /\ prefix "GET /proc" buf = false /\
   prefix "GET /core" buf = false /\ prefix "GET /ne" buf = false /\
   prefix "GET / HTT" buf = false).
Proof.
  intros buf. rewrite route_prefix.
  destruct (prefix "GET /cp" buf) eqn:E1; [route_on "GET /cp" E1|].
  destruct (prefix "GET /loa" buf) eqn:E2; [route_on "GET /loa" E2|].
  destruct (prefix "GET /uptim" buf) eqn:E3; [route_on "GET /uptim" E3|].
  destruct (prefix "GET /proc" buf) eqn:E4; [route_on "GET /proc" E4|].
  destruct (prefix "GET /core" buf) eqn:E5; [route_on "GET /core" E5|].
  destruct (prefix "GET /ne" buf) eqn:E6; [route_on "GET /ne" E6|].
  destruct (prefix "GET / HTT" buf) eqn:E7; [route_on "GET / HTT" E7|].
  repeat split; intros; try reflexivity; try discriminate;
    intuition discriminate.
Qed.

Lemma route_by_shortened_literal_witness : route "GET /cpx" = R_CPU.
Proof.
  apply (proj1 (route_by_shortened_literal "GET /cpx")). reflexivity.
Defined.

(** No test of the router succeeds on a request for which [H] says
    that it does not start with the characters all literals share. *)
Ltac no_literal buf H :=
  repeat match goal with
  | |- context [if prefix ?lit buf then _ else _] =>
      let E := fresh "E" in
      destruct (prefix lit buf) eqn:E;
      [ apply prefix_app in E as [?rest ->]; cbn in H; discriminate | ]
  end;
  reflexivity.

(** X2.  A request that does not start with GET, a space and a slash
    (another method, another case, an empty line) is given the error
    route. *)
Theorem route_other_method : forall buf,
  prefix "GET /" buf = false -> route buf = R_ERR.
Proof.
  intros buf H. rewrite route_prefix. no_literal buf H.
Qed.

Lemma route_other_method_witness :
  route "POST /cpu HTTP/1.1" = R_ERR /\ route EmptyString = R_ERR.
Proof.
  split.
  - apply (route_other_method "POST /cpu HTTP/1.1"). reflexivity.
  - apply (route_other_method EmptyString). reflexivity.
Defined.

Lemma prefix_app_long : forall p buf rest,
  (String.length p <= String.length buf)%nat ->
  prefix p (buf ++ rest) = prefix p buf.
Proof.
  induction p as [|c p IH]; intros buf rest H.
  - destruct buf; destruct rest; reflexivity.
  - destruct buf as [|b buf]; cbn in H; [lia|].
    cbn. destruct (ascii_dec c b); [apply IH; lia | reflexivity].
Qed.

(** X3.  The router looks at no more than the first ten characters of
    the request: whatever follows them (the rest of the path, the HTTP
    version, headers) does not change the route. *)
Theorem route_first_ten : forall buf rest,
  (10 <= String.length buf)%nat -> route (buf ++ rest) = route buf.
Proof.
  intros buf rest H. rewrite !route_prefix.
  rewrite !prefix_app_long by (cbn; lia). reflexivity.
Qed.

Lemma route_first_ten_witness :
  route ("GET /uptime" ++ "s?x=1 HTTP/1.1") = route "GET /uptime".
Proof. apply (route_first_ten "GET /uptime"). cbn. lia. Defined.

Lemma substring_length_le : forall s n,
  (String.length (substring 0 n s) <= n)%nat.
Proof.
  induction s as [|c s IH]; intros [|n]; cbn; try lia.
  specialize (IH n). lia.
Qed.

(** X4.  Except for the two routes that append the interface list with
    [sprintf], the body that [handle_request] writes holds at most
    [size - 1] characters, whatever the record holds. *)
Theorem handle_request_bounded : forall gimli buf size,
  route buf <> R_NET -> route buf <> R_ALL ->
  (String.length (handle_request gimli buf size) <= size - 1)%nat.
Proof.
  intros gimli buf size Hn Ha. unfold handle_request.
  destruct (route buf); try contradiction;
    unfold snprintf; apply substring_length_le.
Qed.

Lemma handle_request_bounded_witness :
  (String.length (handle_request gimli_zero "GET /load" 8) <= 8 - 1)%nat.
Proof.
  apply (handle_request_bounded gimli_zero "GET /load" 8);
    vm_compute; discriminate.
Defined.

(** ** The interface array of a reply *)

Lemma append_nil_r : forall s, s ++ EmptyString = s.
Proof. induction s as [|c s IH]; cbn; congruence. Qed.

Lemma append_assoc : forall s t r : string, (s ++ t) ++ r = s ++ (t ++ r).
Proof. induction s as [|c s IH]; intros t r; cbn; [reflexivity|]. now rewrite IH. Qed.

(** The loop over the interfaces writes them in order with the
    separator between two of them and none after the last. *)
Lemma netifs_loop_concat : forall gimli fmt sep fuel i output,
  i + Z.of_nat fuel = netifs gimli \/ fuel = 0%nat ->
  netifs_loop gimli fmt sep fuel i output
  = output
    ++ concat sep
         (map (fun k => fmt k (ifname (net gimli k)) (ipv4 (net gimli k)))
            (map (fun j => i + Z.of_nat j) (seq 0 fuel))).
Proof.
  intros gimli fmt sep fuel. induction fuel as [|fuel IH]; intros i output H.
  - cbn. now rewrite append_nil_r.
  - destruct H as [H|H]; [|discriminate].
    cbn [netifs_loop].
    replace (i <? netifs gimli) with true by (symmetry; apply Z.ltb_lt; lia).
    rewrite IH by (left; lia).
    cbn [seq map]. rewrite <- seq_shift, !map_map, Z.add_0_r.
    assert (E : map (fun x => fmt (i + Z.of_nat (S x)) (ifname (net gimli (i + Z.of_nat (S x))))
                         (ipv4 (net gimli (i + Z.of_nat (S x))))) (seq 0 fuel)
                = map (fun x => fmt (i + 1 + Z.of_nat x) (ifname (net gimli (i + 1 + Z.of_nat x)))
                         (ipv4 (net gimli (i + 1 + Z.of_nat x)))) (seq 0 fuel)).
    { apply map_ext. intros x.
      replace (i + Z.of_nat (S x)) with (i + 1 + Z.of_nat x) by lia. reflexivity. }
    rewrite E. clear E.
    destruct fuel as [|fuel].
    + replace (i + 1 <? netifs gimli) with false by (symmetry; apply Z.ltb_ge; lia).
      cbn. now rewrite append_nil_r.
    + replace (i + 1 <? netifs gimli) with true by (symmetry; apply Z.ltb_lt; lia).
      cbn [seq map concat]. now rewrite !append_assoc.
Qed.

(** X5.  The body of the net route is an array of the first
    [gimli.netifs] entries of [gimli.net], in order, separated by commas
    with none after the last; with a count of zero or less it is the
    empty array. *)
Theorem handle_request_net : forall gimli buf,
  route buf = R_NET ->
  handle_request gimli buf OUTPUT_SIZE
  = "{" ++ key "netifs" ++ "["
    ++ concat "," (map (fun e => IFNAME_JSON (ifname e) (ipv4 e)) (net_list gimli))
    ++ "]}" ++ crlf.
Proof.
  intros gimli buf H. unfold handle_request. rewrite H.
  rewrite netifs_loop_concat by lia.
  unfold net_list. rewrite !map_map.
  change (snprintf OUTPUT_SIZE ("{" ++ key "netifs" ++ "["))
    with ("{" ++ key "netifs" ++ "[").
  rewrite !append_assoc. reflexivity.
Qed.

Lemma handle_request_net_witness :
  handle_request two_netifs "GET /net" OUTPUT_SIZE
  = "{" ++ key "netifs" ++ "["
    ++ IFNAME_JSON "lo" "127.0.0.1" ++ "," ++ IFNAME_JSON "eth0" "10.0.0.2"
    ++ "]}" ++ crlf.
Proof.
  rewrite (handle_request_net two_netifs "GET /net"); reflexivity.
Defined.

Lemma netifs_loop_ext : forall g g' fmt sep fuel i output,
  0 <= i -> netifs g' = netifs g ->
  (forall k, 0 <= k < netifs g -> net g' k = net g k) ->
  netifs_loop g' fmt sep fuel i output = netifs_loop g fmt sep fuel i output.
Proof.
  intros g g' fmt sep fuel. induction fuel as [|fuel IH];
    intros i output Hi Hn Hnet; [reflexivity|].
  cbn [netifs_loop]. rewrite Hn.
  destruct (Z.ltb_spec i (netifs g)); [|reflexivity].
  rewrite (Hnet i) by lia. apply IH; [lia | assumption | assumption].
Qed.

(** X6.  A reply depends on the record only through the percentages,
    the load averages, the uptime, the process and core counts and the
    first [gimli.netifs] interfaces: the memory quantities are served by
    no route, and an entry of [gimli.net] at or past the count is never
    rendered. *)
Theorem handle_request_reads : forall g g' buf size,
  (forall k, cpu g' k = cpu g k) ->
  (forall k, load g' k = load g k) ->
  uptime g' = uptime g -> procs g' = procs g -> cores g' = cores g ->
  netifs g' = netifs g ->
  (forall k, 0 <= k < netifs g -> net g' k = net g k) ->
  handle_request g' buf size = handle_request g buf size.
Proof.
  intros g g' buf size Hcpu Hload Hup Hpr Hco Hn Hnet.
  unfold handle_request.
  destruct (route buf);
    rewrite ?Hcpu, ?Hload, ?Hup, ?Hpr, ?Hco, ?Hn;
    rewrite ?(netifs_loop_ext g g') by (assumption || lia);
    reflexivity.
Qed.

Lemma handle_request_reads_witness :
  handle_request
    (set_meminfo
       (set_net two_netifs 2 {| ifname := "stale"; ipv4 := "10.9.9.9" |})
       TOTAL_RAM 4096)
    "GET / HTTP/1.1" OUTPUT_SIZE
  = handle_request two_netifs "GET / HTTP/1.1" OUTPUT_SIZE.
Proof.
  apply (handle_request_reads two_netifs); try reflexivity.
  intros k Hk. cbn in Hk. cbn [net set_meminfo set_net]. unfold upd.
  destruct (Z.eqb_spec k 2); [lia | reflexivity].
Defined.

(** ** The connection handler *)

Lemma last_char_app_chr : forall r c, last_char (r ++ chr c) = c.
Proof.
  induction r as [|a r IH]; intros c; [reflexivity|].
  cbn [append last_char]. rewrite IH.
  destruct r; reflexivity.
Qed.







(** X8.  With at most [sizeof (buf)] bytes received, the handler
    stores outside [buf] exactly when the bytes fill the buffer and the
    last one is no line feed; in every other case it stays inside. *)
Theorem handle_connection_out_of_bounds_iff : forall gimli env data,
  recv env = Some data -> (String.length data <= BUF_SIZE)%nat ->
  (exists idx, handle_connection gimli env = Conn_out_of_bounds idx)
  <-> String.length data = BUF_SIZE /\ last_char data <> LF.
Proof.
  intros gimli env data Hrecv Hlen.
  unfold handle_connection, nul_index. rewrite Hrecv.
  destruct (Z.leb_spec (Z.of_nat (String.length data)) 0) as [H0|H0].
  { split; [intros [idx H]; discriminate|].
    intros [H _]. unfold BUF_SIZE in *. lia. }
  destruct (Ascii.eqb_spec (last_char data) LF) as [E|E].
  - replace ((0 <=? Z.of_nat (String.length data) - 1)
             && (Z.of_nat (String.length data) - 1 <? Z.of_nat BUF_SIZE)) with true
      by (symmetry; apply andb_true_iff; split;
          [apply Z.leb_le | apply Z.ltb_lt]; lia).
    cbn [negb]. split; [|intros [_ H]; contradiction].
    intros [idx H]. destruct (send_header env), (send_body env); discriminate.
  - destruct (Z.ltb_spec (Z.of_nat (String.length data)) (Z.of_nat BUF_SIZE)) as [Hb|Hb].
    + replace (0 <=? Z.of_nat (String.length data)) with true
        by (symmetry; apply Z.leb_le; lia).
      cbn [andb negb]. split; [|intros [H _]; lia].
      intros [idx H]. destruct (send_header env), (send_body env); discriminate.
    + rewrite andb_false_r. cbn [negb]. split; [|intros _; eexists; reflexivity].
      intros _. split; [lia | assumption].
Qed.

Lemma handle_connection_out_of_bounds_iff_witness :
  ~ exists idx,
      handle_connection gimli_zero (request_env (fill "B" 1023 ++ nl))
      = Conn_out_of_bounds idx.
Proof.
  intros H.
  apply (handle_connection_out_of_bounds_iff gimli_zero
           (request_env (fill "B" 1023 ++ nl)) (fill "B" 1023 ++ nl)) in H.
  - destruct H as [_ H]. apply H. unfold nl. apply last_char_app_chr.
  - reflexivity.
  - rewrite length_app, length_fill. unfold BUF_SIZE. cbn. lia.
Defined.

Lemma prefix_cstr_substring : forall p s k,
  prefix p (cstr (substring 0 k s)) = true -> prefix p s = true.
Proof.
  induction p as [|a p IH]; intros s k H; [destruct s; reflexivity|].
  destruct s as [|c s]; [destruct k; discriminate|].
  destruct k as [|k]; [discriminate|].
  cbn in H. destruct (Ascii.eqb c NUL); [discriminate|].
  cbn in *. destruct (ascii_dec a c); [|discriminate].
  now apply IH in H.
Qed.

(** X9.  The status line does not depend on the request: bytes that
    do not start with GET, a space and a slash are answered with the
    header of a successful reply, 200 OK, followed by the error object. *)
Theorem handle_connection_other_method : forall gimli data,
  (0 < String.length data < BUF_SIZE)%nat ->
  prefix "GET /" data = false ->
  handle_connection gimli (request_env data)
  = Conn_closed [http_header; err_body].
Proof.
  intros gimli data Hlen Hp.
  pose proof (nul_index_in_bounds data) as Hidx.
  unfold handle_connection. cbn [request_env recv send_header send_body negb].
  replace (Z.of_nat (String.length data) <=? 0) with false
    by (symmetry; apply Z.leb_gt; lia).
  replace ((0 <=? nul_index data) && (nul_index data <? Z.of_nat BUF_SIZE)) with true
    by (symmetry; apply andb_true_iff; split;
        [apply Z.leb_le | apply Z.ltb_lt]; lia).
  cbn [negb].
  set (buf := cstr (substring 0 (Z.to_nat (nul_index data)) data)).
  assert (Hb : prefix "GET /" buf = false).
  { destruct (prefix "GET /" buf) eqn:E; [|reflexivity].
    apply prefix_cstr_substring in E. congruence. }
  assert (Hr : route buf = R_ERR) by (rewrite route_prefix; no_literal buf Hb).
  unfold handle_request. rewrite Hr. reflexivity.
Qed.

Lemma handle_connection_other_method_witness :
  handle_connection two_netifs (request_env "DELETE /net HTTP/1.1")
  = Conn_closed [http_header; err_body].
Proof.
  apply (handle_connection_other_method two_netifs "DELETE /net HTTP/1.1").
  - unfold BUF_SIZE. cbn. lia.
  - reflexivity.
Defined.



(** ** The length of the interface array *)

Lemma length_concat_ge : forall sep c l,
  (forall x, In x l -> (c <= String.length x)%nat) ->
  ((c + String.length sep) * List.length l
   <= String.length (concat sep l) + String.length sep)%nat.
Proof.
  intros sep c l. induction l as [|x [|y l] IH]; intros H.
  - cbn. lia.
  - cbn. specialize (H x (or_introl eq_refl)). lia.
  - change (concat sep (x :: y :: l)) with (x ++ sep ++ concat sep (y :: l)).
    rewrite !length_app.
    pose proof (H x (or_introl eq_refl)) as Hx.
    assert (IH' := IH (fun z Hz => H z (or_intror Hz))).
    change (List.length (x :: y :: l)) with (S (List.length (y :: l))).
    rewrite Nat.mul_succ_r. lia.
Qed.

Lemma length_IFNAME_JSON : forall name addr,
  String.length (IFNAME_JSON name addr)
  = (23 + String.length name + String.length addr)%nat.
Proof.
  intros name addr. unfold IFNAME_JSON.
  repeat (rewrite length_app; cbn [String.length q chr]).
  lia.
Qed.

(** X11.  The net route appends with [sprintf], which has no limit.
    An entry takes 23 characters besides its name and its address, so the
    body holds at least [14 + 24 * gimli.netifs] characters, and with 85
    interfaces or more in the record it is longer than the 2,047
    characters that [output] has room for. *)
Theorem handle_request_net_length : forall gimli buf,
  route buf = R_NET ->
  14 + 24 * netifs gimli
  <= Z.of_nat (String.length (handle_request gimli buf OUTPUT_SIZE)) /\
  (85 <= netifs gimli ->
   (OUTPUT_SIZE - 1 < String.length (handle_request gimli buf OUTPUT_SIZE))%nat).
Proof.
  intros gimli buf H.
  assert (Hl : 14 + 24 * netifs gimli
               <= Z.of_nat (String.length (handle_request gimli buf OUTPUT_SIZE))).
  { unfold handle_request. rewrite H.
    rewrite netifs_loop_concat by lia.
    change (snprintf OUTPUT_SIZE ("{" ++ key "netifs" ++ "["))
      with ("{" ++ key "netifs" ++ "[").
    rewrite !length_app.
    match goal with
    | |- context [concat "," ?l] =>
        pose proof (length_concat_ge "," 23 l) as Hc;
        assert (Hn : List.length l = Z.to_nat (netifs gimli))
          by (now rewrite !length_map, length_seq)
    end.
    rewrite Hn in Hc. cbn [String.length] in Hc.
    lapply Hc.
    - intros Hc'. cbn [String.length key q chr crlf append]. lia.
    - intros x Hx. apply in_map_iff in Hx as (k & <- & _).
      rewrite length_IFNAME_JSON. lia. }
  split; [exact Hl|]. intros Hn. unfold OUTPUT_SIZE in *. lia.
Qed.

Lemma handle_request_net_length_witness :
  14 + 24 * 85
  <= Z.of_nat (String.length
                 (handle_request (set_netifs gimli_zero 85) "GET /net" OUTPUT_SIZE)) /\
  (OUTPUT_SIZE - 1
   < String.length (handle_request (set_netifs gimli_zero 85) "GET /net" OUTPUT_SIZE))%nat.
Proof.
  destruct (handle_request_net_length (set_netifs gimli_zero 85) "GET /net" eq_refl)
    as [H1 H2].
  split; [exact H1 | apply H2; cbn; lia].
Defined.

(** ** The processor sampler *)




Lemma delta_sym : forall a b k, delta a b k = delta b a k.
Proof.
  intros a b k. unfold delta. rewrite <- Z.abs_opp. f_equal. lia.
Qed.

Lemma delta_sum_sym : forall a b, delta_sum a b = delta_sum b a.
Proof.
  intros a b. unfold delta_sum. now rewrite !(delta_sym a b).
Qed.

(** X13.  The sampler takes the distance of the two readings, not
    their difference: with the readings exchanged (every counter running
    backwards) it stores the same five percentages. *)
Theorem get_cpu_util_exchanged : forall gimli a b,
  (forall k, 0 <= counter a k < 2 ^ 64) ->
  (forall k, 0 <= counter b k < 2 ^ 64) ->
  0 < delta_sum a b < 2 ^ 64 ->
  fst (get_cpu_util (cpu_cycle b a) gimli) = G_OK /\
  forall k,
    cpu (snd (get_cpu_util (cpu_cycle b a) gimli)) k
    = cpu (snd (get_cpu_util (cpu_cycle a b) gimli)) k.
Proof.
  intros gimli a b Ha Hb Hs.
  destruct (get_cpu_util_stores (cpu_cycle a b) gimli a b) as [_ Hab];
    try reflexivity; try assumption.
  destruct (get_cpu_util_stores (cpu_cycle b a) gimli b a) as [Hst Hba];
    try reflexivity; try assumption.
  { now rewrite delta_sum_sym. }
  split; [exact Hst|]. intros k.
  now rewrite Hab, Hba, delta_sym, delta_sum_sym.
Qed.

Lemma get_cpu_util_exchanged_witness :
  fst (get_cpu_util (cpu_cycle reading_new reading_old) gimli_zero) = G_OK /\
  forall k,
    cpu (snd (get_cpu_util (cpu_cycle reading_new reading_old) gimli_zero)) k
    = cpu (snd (get_cpu_util (cpu_cycle reading_old reading_new) gimli_zero)) k.
Proof.
  apply (get_cpu_util_exchanged gimli_zero reading_old reading_new).
  - intros k. destruct k; cbn; lia.
  - intros k. destruct k; cbn; lia.
  - cbn. lia.
Defined.

Lemma percent_of_zero : forall tot,
  0 < tot < 2 ^ 64 ->
  percent (LongDouble.of_Z 0) (LongDouble.of_Z tot) = LongDouble.zero.
Proof.
  intros tot Ht. unfold percent.
  rewrite (of_Z_norm tot) by lia.
  destruct (norm_pos tot Ht) as (mt & et & -> & _).
  rewrite of_Z_100. reflexivity.
Qed.

(** X14.  Four counters on a line are enough.  The fifth, iowait, is
    then left at the zero of the initialiser: the cycle succeeds, the
    iowait percentage stored is zero, and the four others are the shares
    of the sum of the four deltas. *)
Theorem get_cpu_util_four_columns : forall env gimli old new,
  cpu_fopen env = true ->
  cpu_fgets1 env = Some (firstn 4 (stat_line old)) ->
  cpu_fgets2 env = Some (firstn 4 (stat_line new)) ->
  cpu_fclose env = true ->
  (forall k, k <> CPU_IOWAIT -> 0 <= counter old k < 2 ^ 64) ->
  (forall k, k <> CPU_IOWAIT -> 0 <= counter new k < 2 ^ 64) ->
  0 < delta old new CPU_USER + delta old new CPU_NICE
      + delta old new CPU_SYSTEM + delta old new CPU_IDLE < 2 ^ 64 ->
  fst (get_cpu_util env gimli) = G_OK /\
  cpu (snd (get_cpu_util env gimli)) CPU_IOWAIT = LongDouble.zero /\
  forall k, k <> CPU_IOWAIT ->
    cpu (snd (get_cpu_util env gimli)) k
    = percent (LongDouble.of_Z (delta old new k))
        (LongDouble.of_Z
           (delta old new CPU_USER + delta old new CPU_NICE
            + delta old new CPU_SYSTEM + delta old new CPU_IDLE)).
Proof.
  intros env gimli old new Ho H1 H2 Hc Hold Hnew Hsum.
  set (old0 := {| user := user old; nice := nice old; system := system old;
                  idle := idle old; iowait := 0 |}).
  set (new0 := {| user := user new; nice := nice new; system := system new;
                  idle := idle new; iowait := 0 |}).
  assert (E : get_cpu_util env gimli = get_cpu_util (cpu_cycle old0 new0) gimli).
  { unfold get_cpu_util. rewrite Ho, H1, H2, Hc. reflexivity. }
  assert (Hd : forall k, k <> CPU_IOWAIT -> delta old0 new0 k = delta old new k)
    by (intros k Hk; destruct k; try reflexivity; contradiction).
  assert (Hs : delta_sum old0 new0
               = delta old new CPU_USER + delta old new CPU_NICE
                 + delta old new CPU_SYSTEM + delta old new CPU_IDLE)
    by (unfold delta_sum, delta; cbn; lia).
  destruct (get_cpu_util_stores (cpu_cycle old0 new0) gimli old0 new0)
    as [Hst Hcpu]; try reflexivity.
  - intros k. destruct k; unfold old0; cbn [counter user nice system idle iowait];
      [ apply (Hold CPU_USER) | apply (Hold CPU_NICE) | apply (Hold CPU_SYSTEM)
      | apply (Hold CPU_IDLE) | lia ]; discriminate.
  - intros k. destruct k; unfold new0; cbn [counter user nice system idle iowait];
      [ apply (Hnew CPU_USER) | apply (Hnew CPU_NICE) | apply (Hnew CPU_SYSTEM)
      | apply (Hnew CPU_IDLE) | lia ]; discriminate.
  - rewrite Hs. exact Hsum.
  - rewrite E. split; [exact Hst|]. split.
    + rewrite Hcpu, Hs. change (delta old0 new0 CPU_IOWAIT) with 0.
      now apply percent_of_zero.
    + intros k Hk. now rewrite Hcpu, Hs, Hd.
Qed.

Lemma get_cpu_util_four_columns_witness :
  fst (get_cpu_util
         {| cpu_fopen := true; cpu_fgets1 := Some (firstn 4 (stat_line reading_old));
            cpu_fgets2 := Some (firstn 4 (stat_line reading_new));
            cpu_fclose := true |} gimli_zero) = G_OK /\
  cpu (snd (get_cpu_util
              {| cpu_fopen := true;
                 cpu_fgets1 := Some (firstn 4 (stat_line reading_old));
                 cpu_fgets2 := Some (firstn 4 (stat_line reading_new));
                 cpu_fclose := true |} gimli_zero)) CPU_IOWAIT = LongDouble.zero.
Proof.
  destruct (get_cpu_util_four_columns
              {| cpu_fopen := true;
                 cpu_fgets1 := Some (firstn 4 (stat_line reading_old));
                 cpu_fgets2 := Some (firstn 4 (stat_line reading_new));
                 cpu_fclose := true |} gimli_zero reading_old reading_new)
    as (H1 & H2 & _); try reflexivity.
  - intros k _. destruct k; cbn; lia.
  - intros k _. destruct k; cbn; lia.
  - cbn. lia.
  - split; assumption.
Defined.

(** ** The load sampler *)

Lemma sscanf_load_count : forall vals gimli,
  (fst (sscanf_load vals gimli) <? 2) = (List.length vals <? 2)%nat.
Proof.
  intros [|a [|b [|c rest]]] gimli; reflexivity.
Qed.



(** X15.  A cycle of [get_loadavg] succeeds exactly when the file
    opens and closes and two numbers at least convert from the line
    read, so that a line of two numbers counts as a complete reading. *)
Theorem get_loadavg_status : forall env gimli,
  fst (get_loadavg env gimli) = G_OK <->
  load_fopen env = true /\ load_fclose env = true /\
  exists line, load_fgets env = Some line /\ (2 <= List.length line)%nat.
Proof.
  intros env gimli. unfold get_loadavg.
  destruct (load_fopen env); cbn [negb].
  2:{ split; [discriminate | intros (H & _); discriminate]. }
  destruct (load_fgets env) as [line|].
  2:{ split; [discriminate | intros (_ & _ & l & H & _); discriminate]. }
  pose proof (sscanf_load_count line gimli) as Hc.
  destruct (sscanf_load line gimli) as [cnt g]. cbn [fst] in Hc. rewrite Hc.
  destruct (Nat.ltb_spec (List.length line) 2) as [L|L].
  { split; [discriminate|]. intros (_ & _ & l & H & Hl). inversion H; subst. lia. }
  destruct (load_fclose env); cbn [negb].
  - split; [|reflexivity]. intros _. repeat split. now exists line.
  - split; [discriminate | intros (_ & H & _); discriminate].
Qed.

Lemma get_loadavg_status_witness :
  fst (get_loadavg
         {| load_fopen := true; load_fgets := Some [half; half];
            load_fclose := true |} gimli_zero) = G_OK.
Proof.
  apply (get_loadavg_status
           {| load_fopen := true; load_fgets := Some [half; half];
              load_fclose := true |} gimli_zero).
  repeat split. exists [half; half]. split; [reflexivity | cbn; lia].
Defined.



(** ** The memory sampler *)

Lemma to_kb_range : forall x unit, 0 <= to_kb x unit < 2 ^ 54.
Proof.
  intros x unit. unfold to_kb.
  pose proof (Z.mod_pos_bound (x * unit) (2 ^ 64) ltac:(lia)) as H.
  split; [apply Z.div_pos; lia|].
  apply Z.div_lt_upper_bound; [lia|].
  change (1024 * 2 ^ 54) with (2 ^ 64). lia.
Qed.

Lemma to_kb_exact : forall x unit,
  0 <= x * unit < 2 ^ 64 -> to_kb x unit = x * unit / 1024.
Proof.
  intros x unit H. unfold to_kb. now rewrite Z.mod_small.
Qed.

(** X17.  [get_meminfo] stores each of the eight quantities in
    kilobytes: the field of [struct sysinfo] for that quantity times the
    unit, in [unsigned long], divided by 1024 and rounded down, a value
    below [2 ^ 54].  As long as the product fits an [unsigned long] this
    is the byte count divided by 1024, and then a quantity that is not
    above another stays so in the record (free against total).  The unit,
    the process count and the uptime are copied as they are. *)
Theorem get_meminfo_kilobytes : forall si gimli,
  let g := snd (get_meminfo (Some si) gimli) in
  fst (get_meminfo (Some si) gimli) = G_OK /\
  (forall k, k <> MEM_UNIT ->
     meminfo g k = (si_quantity si k * si_mem_unit si) mod 2 ^ 64 / 1024 /\
     0 <= meminfo g k < 2 ^ 54 /\
     (0 <= si_quantity si k * si_mem_unit si < 2 ^ 64 ->
      meminfo g k = si_quantity si k * si_mem_unit si / 1024)) /\
  (forall j k, j <> MEM_UNIT -> k <> MEM_UNIT ->
     0 <= si_mem_unit si -> 0 <= si_quantity si j <= si_quantity si k ->
     si_quantity si k * si_mem_unit si < 2 ^ 64 ->
     meminfo g j <= meminfo g k) /\
  meminfo g MEM_UNIT = si_mem_unit si /\
  procs g = si_procs si /\ uptime g = si_uptime si.
Proof.
  intros si gimli g.
  assert (Hk : forall k, k <> MEM_UNIT ->
            meminfo g k = to_kb (si_quantity si k) (si_mem_unit si)).
  { intros k Hk. subst g. cbn [get_meminfo snd].
    destruct k; try contradiction;
      cbn [set_uptime set_procs set_meminfo meminfo si_quantity]; unfold upd;
      cbn [mem_idx_eqb]; reflexivity. }
  split; [reflexivity|]. split; [|split].
  - intros k Hne. rewrite (Hk k Hne). split; [reflexivity|].
    split; [apply to_kb_range|]. apply to_kb_exact.
  - intros j k Hj Hne Hu Hjk Hfit. rewrite (Hk j Hj), (Hk k Hne).
    assert (Hm : 0 <= si_quantity si j * si_mem_unit si
                 <= si_quantity si k * si_mem_unit si)
      by (split; [apply Z.mul_nonneg_nonneg | apply Z.mul_le_mono_nonneg_r]; lia).
    rewrite !to_kb_exact by lia. apply Z.div_le_mono; lia.
  - repeat split.
Qed.

Lemma get_meminfo_kilobytes_witness :
  meminfo (snd (get_meminfo (Some sysinfo_4k) gimli_zero)) BUFFER_RAM = 120000 /\
  meminfo (snd (get_meminfo (Some sysinfo_4k) gimli_zero)) FREE_SWAP
  <= meminfo (snd (get_meminfo (Some sysinfo_4k) gimli_zero)) TOTAL_SWAP.
Proof.
  destruct (get_meminfo_kilobytes sysinfo_4k gimli_zero) as (_ & Hk & Hle & _).
  split.
  - destruct (Hk BUFFER_RAM ltac:(discriminate)) as (_ & _ & He).
    rewrite He; [reflexivity | cbn; lia].
  - apply (Hle FREE_SWAP TOTAL_SWAP); try discriminate; cbn; lia.
Defined.

(** ** The interface sampler, continued *)

Section NetifMore.

Variable MAX_NETIFS : Z.
Variable env : netif_env.

(** What the loop keeps: the count only grows, one at most for an IPv4
    entry, and stays within the array; the other fields are not stored
    to, and of [gimli.net] only the entries from the first count to the
    last. *)
Lemma netif_loop_count : forall ifa gimli st g,
  0 <= netifs gimli <= MAX_NETIFS ->
  netif_loop MAX_NETIFS env ifa gimli = Returned st g ->
  netifs gimli <= netifs g <= MAX_NETIFS /\
  netifs g - netifs gimli <= Z.of_nat (List.length (filter is_ipv4 ifa)) /\
  cpu g = cpu gimli /\ load g = load gimli /\ meminfo g = meminfo gimli /\
  procs g = procs gimli /\ uptime g = uptime gimli /\
  (forall k, k < netifs gimli \/ netifs g < k -> net g k = net gimli k) /\
  (st = G_OK -> net g (netifs g) = net gimli (netifs g)).
Proof.
  induction ifa as [|cur next IH]; intros gimli st g Hn H; cbn [netif_loop] in H.
  - inversion H; subst. cbn. repeat split; try lia; reflexivity.
  - cbn [filter]. destruct (is_ipv4 cur) eqn:Hv4; unfold is_ipv4 in Hv4;
      destruct (ifa_addr cur) as [addr|]; try discriminate;
      try rewrite Hv4 in H; [|now apply IH|now apply IH].
    destruct (in_net MAX_NETIFS (netifs gimli)) eqn:Hin; cbn [negb] in H;
      [|discriminate].
    unfold in_net in Hin. apply andb_true_iff in Hin as [_ Hlt].
    apply Z.ltb_lt in Hlt.
    destruct (getnameinfo env addr _) as [s host].
    destruct (s =? 0); cbn [negb] in H.
    + apply IH in H; [|cbn; lia].
      cbn [set_netifs set_net netifs cpu load meminfo procs uptime net] in H.
      destruct H as (H1 & H2 & H3 & H4 & H5 & H6 & H7 & H8 & H9).
      cbn [List.length]. repeat split; try assumption; try lia.
      * intros k Hk. rewrite H8 by lia. unfold upd.
        destruct (Z.eqb_spec k (netifs gimli)); [lia | reflexivity].
      * intros Hst. rewrite (H9 Hst). unfold upd.
        destruct (Z.eqb_spec (netifs g) (netifs gimli)); [lia | reflexivity].
    + inversion H; subst.
      cbn [set_netifs set_net netifs cpu load meminfo procs uptime net List.length].
      repeat split; try lia; try discriminate.
      intros k Hk. unfold upd.
      destruct (Z.eqb_spec k (netifs gimli)); [lia | reflexivity].
Qed.

Lemma netif_loop_app : forall pre rest gimli g,
  netif_loop MAX_NETIFS env pre gimli = Returned G_OK g ->
  netif_loop MAX_NETIFS env (pre ++ rest) gimli
  = netif_loop MAX_NETIFS env rest g.
Proof.
  induction pre as [|cur next IH]; intros rest gimli g H.
  - cbn in H. now inversion H.
  - cbn [app netif_loop] in *.
    destruct (ifa_addr cur) as [addr|]; [|now apply IH].
    destruct (sa_family addr =? AF_INET); [|now apply IH].
    destruct (negb (in_net MAX_NETIFS (netifs gimli))); [discriminate|].
    destruct (getnameinfo env addr _) as [s host].
    destruct (negb (s =? 0)); [discriminate|].
    now apply IH.
Qed.

End NetifMore.

Lemma net_seg_ext : forall g g' from len,
  (forall k, from <= k < from + Z.of_nat len -> net g k = net g' k) ->
  net_seg g from len = net_seg g' from len.
Proof.
  intros g g' from len H. unfold net_seg. apply map_ext_in.
  intros k Hk. apply in_seq in Hk. apply H. lia.
Qed.




(** X19.  A cycle in which [getnameinfo] rejects an address stops
    there with [G_FAIL]: the interfaces enumerated before it are in the
    record as a successful cycle leaves them, those after it are not
    looked at, and the entry just past the count holds the name of the
    rejected interface with the address that was there before. *)
Theorem get_netif_unresolved : forall MAX_NETIFS env pre cur post gimli,
  getifaddrs env = Some (pre ++ cur :: post)%list ->
  forallb (resolved env) (filter is_ipv4 pre) = true ->
  is_ipv4 cur = true -> resolved env cur = false ->
  Z.of_nat (List.length (filter is_ipv4 pre)) < MAX_NETIFS ->
  exists g,
    get_netif MAX_NETIFS env gimli = Returned G_FAIL g /\
    netifs g = Z.of_nat (List.length (filter is_ipv4 pre)) /\
    net_list g = map (entry_of env) (filter is_ipv4 pre) /\
    ifname (net g (netifs g)) = ifa_name cur /\
    ipv4 (net g (netifs g)) = ipv4 (net gimli (netifs g)).
Proof.
  intros MAX_NETIFS env pre cur post gimli Hifa Hres Hv4 Hun Hlen.
  unfold get_netif. rewrite Hifa.
  destruct (netif_loop_stores MAX_NETIFS env pre (set_netifs gimli 0) Hres)
    as (g1 & Hg1 & Hn1 & Hseg & _); cbn [set_netifs netifs] in *; try lia.
  rewrite (netif_loop_app MAX_NETIFS env pre (cur :: post) _ g1 Hg1).
  pose proof (netif_loop_count MAX_NETIFS env pre (set_netifs gimli 0) G_OK g1
                ltac:(cbn; lia) Hg1) as (_ & _ & _ & _ & _ & _ & _ & _ & Hlast).
  specialize (Hlast eq_refl). cbn [set_netifs net] in Hlast.
  cbn [netif_loop]. unfold is_ipv4, resolved in Hv4, Hun.
  destruct (ifa_addr cur) as [addr|]; [|discriminate].
  rewrite Hv4.
  replace (in_net MAX_NETIFS (netifs g1)) with true
    by (symmetry; unfold in_net; apply andb_true_iff;
        split; [apply Z.leb_le | apply Z.ltb_lt]; lia).
  cbn [negb].
  destruct (getnameinfo env addr sizeof_sockaddr_in) as [s host].
  cbn [fst] in Hun. rewrite Hun. cbn [negb].
  eexists. split; [reflexivity|].
  cbn [set_net netifs net]. unfold upd. rewrite Z.eqb_refl. cbn [ifname ipv4].
  split; [lia|]. split; [|split; [reflexivity | now rewrite Hlast]].
  rewrite net_list_seg. cbn [set_net netifs]. rewrite Hn1. cbn [Z.add].
  rewrite Nat2Z.id, <- Hseg.
  apply net_seg_ext. intros k Hk. cbn [net set_net]. unfold upd.
  destruct (Z.eqb_spec k (Z.of_nat (List.length (filter is_ipv4 pre))));
    [lia | reflexivity].
Qed.

Lemma get_netif_unresolved_witness :
  exists g,
    get_netif 8 unresolved_env two_netifs = Returned G_FAIL g /\
    netifs g = 0 /\ net_list g = [] /\
    ifname (net g (netifs g)) = "wlan0" /\
    ipv4 (net g (netifs g)) = ipv4 (net two_netifs (netifs g)).
Proof.
  apply (get_netif_unresolved 8 unresolved_env []
           {| ifa_name := "wlan0"; ifa_addr := Some (ipv4_addr "x") |} []
           two_netifs); try reflexivity.
Defined.

(** X20.  The sampler and the router together: after a cycle of
    [get_netif] whose IPv4 addresses convert and fit the array, a request
    for the net route is answered with the array of exactly the IPv4
    interfaces enumerated, each with its name and numeric address, in the
    order of the enumeration. *)
Theorem get_netif_then_request : forall MAX_NETIFS env ifa gimli buf,
  getifaddrs env = Some ifa ->
  forallb (resolved env) (filter is_ipv4 ifa) = true ->
  Z.of_nat (List.length (filter is_ipv4 ifa)) <= MAX_NETIFS ->
  route buf = R_NET ->
  exists g,
    get_netif MAX_NETIFS env gimli = Returned G_OK g /\
    handle_request g buf OUTPUT_SIZE
    = "{" ++ key "netifs" ++ "["
      ++ concat ","
           (map (fun cur => IFNAME_JSON (ifa_name cur) (ipv4 (entry_of env cur)))
              (filter is_ipv4 ifa))
      ++ "]}" ++ crlf.
Proof.
  intros MAX_NETIFS env ifa gimli buf Hifa Hres Hlen Hr.
  unfold get_netif. rewrite Hifa.
  destruct (netif_loop_stores MAX_NETIFS env ifa (set_netifs gimli 0) Hres)
    as (g & Hg & Hn & Hseg & _); cbn [set_netifs netifs] in *; try lia.
  exists g. split; [exact Hg|].
  unfold handle_request. rewrite Hr.
  rewrite netifs_loop_concat by lia.
  change (snprintf OUTPUT_SIZE ("{" ++ key "netifs" ++ "["))
    with ("{" ++ key "netifs" ++ "[").
  rewrite !append_assoc. do 3 f_equal.
  rewrite map_map.
  change (map (fun x => IFNAME_JSON (ifname (net g (0 + Z.of_nat x)))
                          (ipv4 (net g (0 + Z.of_nat x))))
            (seq 0 (Z.to_nat (netifs g))))
    with (map (fun x => (fun e => IFNAME_JSON (ifname e) (ipv4 e))
                          (net g (0 + Z.of_nat x)))
            (seq 0 (Z.to_nat (netifs g)))).
  rewrite <- (map_map (fun x => net g (0 + Z.of_nat x))
                (fun e => IFNAME_JSON (ifname e) (ipv4 e))).
  fold (net_seg g 0 (Z.to_nat (netifs g))).
  rewrite Hn. cbn [Z.add]. rewrite Nat2Z.id, Hseg, map_map. reflexivity.
Qed.

Lemma get_netif_then_request_witness :
  exists g,
    get_netif 8 mixed_env two_netifs = Returned G_OK g /\
    handle_request g "GET /net HTTP/1.1" OUTPUT_SIZE
    = "{" ++ key "netifs" ++ "[" ++ IFNAME_JSON "eth0" "192.168.1.5"
      ++ "]}" ++ crlf.
Proof.
  apply (get_netif_then_request 8 mixed_env mixed two_netifs "GET /net HTTP/1.1");
    try reflexivity.
  simpl. lia.
Defined.

(** ** The interface count in every state of the process *)

Lemma get_cpu_util_netifs : forall env gimli,
  netifs (snd (get_cpu_util env gimli)) = netifs gimli.
Proof.
  intros env gimli. get_cpu_util_paths env; reflexivity.
Qed.

Lemma get_loadavg_netifs : forall env gimli,
  netifs (snd (get_loadavg env gimli)) = netifs gimli.
Proof.
  intros env gimli. unfold get_loadavg.
  destruct (load_fopen env); cbn [negb]; [|reflexivity].
  destruct (load_fgets env) as [line|]; [|reflexivity].
  assert (H : netifs (snd (sscanf_load line gimli)) = netifs gimli)
    by (destruct line as [|a [|b [|c rest]]]; reflexivity).
  destruct (sscanf_load line gimli) as [cnt g]. cbn [snd] in H.
  destruct (cnt <? 2); [exact H|].
  destruct (load_fclose env); exact H.
Qed.

Lemma get_meminfo_netifs : forall env gimli,
  netifs (snd (get_meminfo env gimli)) = netifs gimli.
Proof. intros [meminfo|] gimli; reflexivity. Qed.

Lemma step_netifs : forall MAX_NETIFS p p',
  step MAX_NETIFS p p' ->
  0 <= netifs (shared p) <= MAX_NETIFS ->
  0 <= netifs (shared p') <= MAX_NETIFS.
Proof.
  intros MAX_NETIFS p p' Hs Hn.
  destruct Hs as [p nproc Hoff|p env st g _ H|p env st g H|p env st g H
                  |p env st g H|p env sent _]; cbn [shared].
  - exact Hn.
  - now rewrite <- (get_cpu_util_netifs env (shared p)), H in Hn.
  - now rewrite <- (get_loadavg_netifs env (shared p)), H in Hn.
  - now rewrite <- (get_meminfo_netifs env (shared p)), H in Hn.
  - unfold get_netif in H. destruct (getifaddrs env) as [ifa|].
    + apply netif_loop_count in H; cbn [set_netifs netifs] in *; lia.
    + now inversion H; subst.
  - exact Hn.
Qed.

(** X21.  Whatever the threads do, in whatever order, as long as no
    cycle of [get_netif] stores outside the array: the interface count
    of the record stays between zero and the size of [gimli.net], so that
    a request, which walks the entries below the count, reads inside the
    array. *)
Theorem run_netifs_in_range : forall MAX_NETIFS p p',
  run MAX_NETIFS p p' ->
  0 <= netifs (shared p) <= MAX_NETIFS ->
  0 <= netifs (shared p') <= MAX_NETIFS.
Proof.
  intros MAX_NETIFS p p' Hr.
  induction Hr as [p|p p' p'' Hs Hr IH]; [trivial|].
  intros Hn. apply IH. eapply step_netifs; eassumption.
Qed.

Lemma run_netifs_in_range_witness :
  0 <= netifs
         (store_entry mixed_env
            {| ifa_name := "eth0"; ifa_addr := Some (ipv4_addr "192.168.1.5") |}
            (set_netifs gimli_zero 0))
    <= 8.
Proof.
  apply (run_netifs_in_range 8 process_start
           {| shared :=
                store_entry mixed_env
                  {| ifa_name := "eth0";
                     ifa_addr := Some (ipv4_addr "192.168.1.5") |}
                  (set_netifs gimli_zero 0);
              cpu_looping := false |}).
  - apply (run_step 8 process_start _ _
             (step_mine_netif 8 process_start mixed_env G_OK _ eq_refl)).
    apply run_nil.
  - cbn. lia.
Defined.

(** ** The range of a percentage *)

(** The product with 100 again, with the size of its mantissa. *)
Lemma mul_100_digits : forall m e,
  Zpos (digits2_pos m) = 64 -> -1000 <= e <= 1000 ->
  exists m' e',
    LongDouble.mul (S754_finite false m e) (LongDouble.of_Z 100)
      = S754_finite false m' e' /\
    Zpos (digits2_pos m') = 64 /\
    (inject_Z (Zpos m') * 2 ^ e'
     <= (1 + u64) * (100 * (inject_Z (Zpos m) * 2 ^ e)))%Q.
Proof.
  intros m e Hd He. rewrite of_Z_100.
  pose proof (digits_bounds m) as [Mlo Mhi]. rewrite Hd in Mlo, Mhi.
  change (2 ^ (64 - 1)) with (2 ^ 63) in Mlo.
  unfold LongDouble.mul, SFmul. cbn [xorb].
  set (c := 14411518807585587200%positive).
  assert (Hc : 2 ^ 63 <= Zpos c < 2 ^ 64) by (subst c; split; reflexivity || (cbv; discriminate)).
  pose proof (digits_bounds (m * c)) as [Plo Phi].
  assert (Hdp : 127 <= Zpos (digits2_pos (m * c)) <= 128).
  { rewrite Pos2Z.inj_mul in Plo, Phi.
    assert (2 ^ 126 = 2 ^ 63 * 2 ^ 63) by reflexivity.
    assert (2 ^ 128 = 2 ^ 64 * 2 ^ 64) by reflexivity.
    split.
    - destruct (Z.le_gt_cases 127 (Zpos (digits2_pos (m * c)))) as [|Hlt]; [assumption|].
      assert (2 ^ Zpos (digits2_pos (m * c)) <= 2 ^ 126) by (apply Z.pow_le_mono_r; lia).
      nia.
    - destruct (Z.le_gt_cases (Zpos (digits2_pos (m * c))) 128) as [|Hgt]; [assumption|].
      assert (2 ^ 128 <= 2 ^ (Zpos (digits2_pos (m * c)) - 1)) by (apply Z.pow_le_mono_r; lia).
      nia. }
  destruct (round_aux_val false (m * c) (e + -57) loc_Exact (Zpos (m * c)) 1)
    as (m' & e' & Hr & Hdm & He' & Hv); try lia.
  { apply located_exact. lia. }
  exists m', e'. split; [exact Hr|]. split; [exact Hdm|].
  assert (HX : (inject_Z (Zpos (m * c)) / inject_Z 1 * 2 ^ (e + -57)
                == 100 * (inject_Z (Zpos m) * 2 ^ e))%Q).
  { rewrite Pos2Z.inj_mul, inject_Z_mult, Qpow2_add.
    change (2 ^ (-57))%Q with (1 # 144115188075855872)%Q.
    subst c. change (inject_Z 14411518807585587200) with (14411518807585587200 # 1)%Q.
    change (inject_Z 1) with 1%Q.
    field. }
  rewrite HX in Hv. apply Hv.
Qed.

(** A value with a mantissa of 64 digits that is within one rounding
    above another such value is not above it. *)
Lemma grid_le : forall m e c k,
  Zpos (digits2_pos m) = 64 -> 2 ^ 63 <= Zpos c < 2 ^ 64 ->
  (inject_Z (Zpos m) * 2 ^ e <= (1 + u64) * (inject_Z (Zpos c) * 2 ^ k))%Q ->
  (inject_Z (Zpos m) * 2 ^ e <= inject_Z (Zpos c) * 2 ^ k)%Q.
Proof.
  intros m e c k Hd Hc H.
  pose proof (digits_bounds m) as [Mlo Mhi]. rewrite Hd in Mlo, Mhi.
  change (2 ^ (64 - 1)) with (2 ^ 63) in Mlo.
  destruct (Z.le_gt_cases k e) as [Hke|Hke].
  - rewrite (scaled_mantissa m e k Hke) in *.
    assert (Hp : 0 < 2 ^ (e - k)) by (apply Z.pow_pos_nonneg; lia).
    set (M := Zpos m * 2 ^ (e - k)) in *.
    pose proof (Qpow2_pos k) as HP.
    rewrite Qmult_assoc in H. apply Qmult_le_r in H; [|exact HP].
    apply Qmult_le_r; [exact HP|].
    assert (HZ : (inject_Z M * inject_Z (2 ^ 64)
                  <= inject_Z (2 ^ 64 + 1) * inject_Z (Zpos c))%Q).
    { unfold u64 in H.
      change (2 ^ 64)%positive with 18446744073709551616%positive in H.
      change (inject_Z (2 ^ 64)) with (18446744073709551616 # 1)%Q.
      change (inject_Z (2 ^ 64 + 1)) with (18446744073709551617 # 1)%Q.
      lra. }
    rewrite <- !inject_Z_mult, <- Zle_Qle in HZ.
    rewrite <- Zle_Qle. lia.
  - rewrite (scaled_mantissa c k e) by lia.
    pose proof (Qpow2_pos e) as HP.
    apply Qmult_le_r; [exact HP|].
    rewrite <- Zle_Qle.
    assert (2 ^ 1 <= 2 ^ (k - e)) by (apply Z.pow_le_mono_r; lia).
    change (2 ^ 1) with 2 in *. nia.
Qed.

Lemma percent_range : forall d tot,
  0 <= d <= tot -> 0 < tot < 2 ^ 64 ->
  (0 <= val (percent (LongDouble.of_Z d) (LongDouble.of_Z tot)) <= 100)%Q.
Proof.
  intros d tot Hd Ht.
  destruct (Z.eq_dec d 0) as [->|Hd0].
  { rewrite percent_of_zero by assumption. cbn. lra. }
  unfold percent. rewrite (of_Z_norm d), (of_Z_norm tot) by lia.
  destruct (div_norm d tot) as (m & e & -> & Hdm & He & Hq); try lia.
  destruct (mul_100_digits m e Hdm) as (m' & e' & -> & Hdm' & Hp); [lia|].
  cbn [val cond_Zopp].
  assert (Hx : (inject_Z d / inject_Z tot <= 1)%Q).
  { assert (Hpos : (0 < inject_Z tot)%Q)
      by (change 0%Q with (inject_Z 0); rewrite <- Zlt_Qlt; lia).
    apply Qle_shift_div_r; [exact Hpos|].
    rewrite Qmult_1_l, <- Zle_Qle. lia. }
  assert (H1 : (inject_Z (Zpos m) * 2 ^ e <= 1)%Q).
  { assert (E1 : (1 == inject_Z (Zpos (2 ^ 63)) * 2 ^ (-63))%Q) by reflexivity.
    rewrite E1. apply grid_le; [exact Hdm | split; [cbv; discriminate | reflexivity] |].
    rewrite <- E1. destruct Hq as [_ Hq].
    unfold u64 in *.
    change (2 ^ 64)%positive with 18446744073709551616%positive in *.
    lra. }
  assert (E100 : (100 == inject_Z (Zpos 14411518807585587200) * 2 ^ (-57))%Q)
    by reflexivity.
  split.
  - apply Qmult_le_0_compat; [|apply Qlt_le_weak, Qpow2_pos].
    change 0%Q with (inject_Z 0). rewrite <- Zle_Qle. lia.
  - rewrite E100. apply grid_le; [exact Hdm' | split; [cbv; discriminate | reflexivity] |].
    rewrite <- E100.
    unfold u64 in *.
    change (2 ^ 64)%positive with 18446744073709551616%positive in *.
    lra.
Qed.

(** X22.  No stored percentage leaves the range: after a cycle that
    reads two lines of five counters whose deltas do not sum to zero,
    each of the five values in the record is a finite number (no NaN, no
    infinity) between 0 and 100, the bounds included, with no excess from
    rounding. *)
Theorem get_cpu_util_range : forall env gimli old new,
  cpu_fopen env = true ->
  cpu_fgets1 env = Some (stat_line old) ->
  cpu_fgets2 env = Some (stat_line new) ->
  cpu_fclose env = true ->
  (forall k, 0 <= counter old k < 2 ^ 64) ->
  (forall k, 0 <= counter new k < 2 ^ 64) ->
  0 < delta_sum old new < 2 ^ 64 ->
  forall k,
    is_finite (cpu (snd (get_cpu_util env gimli)) k) = true /\
    (0 <= val (cpu (snd (get_cpu_util env gimli)) k) <= 100)%Q.
Proof.
  intros env gimli old new Ho H1 H2 Hc Hold Hnew Hsum k.
  destruct (get_cpu_util_stores env gimli old new Ho H1 H2 Hc Hold Hnew Hsum)
    as [_ Hcpu].
  rewrite Hcpu. pose proof (delta_range old new k Hsum) as Hd. split.
  - now apply percent_of_Z.
  - now apply percent_range.
Qed.

Lemma get_cpu_util_range_witness :
  is_finite (cpu (snd (get_cpu_util (cpu_cycle reading_old reading_new)
                         gimli_zero)) CPU_IDLE) = true /\
  (0 <= val (cpu (snd (get_cpu_util (cpu_cycle reading_old reading_new)
                         gimli_zero)) CPU_IDLE) <= 100)%Q.
Proof.
  apply (get_cpu_util_range (cpu_cycle reading_old reading_new) gimli_zero
           reading_old reading_new); try reflexivity.
  - intros k. destruct k; cbn; lia.
  - intros k. destruct k; cbn; lia.
  - cbn. lia.
Defined.
